(** * Programmatic SEO tool: bulk page generation pipeline

    A shallow embedding of [backend/utils/templating.js], of the
    [POST /generate] handler of [backend/routes/admin.js], of the Mongoose
    schema [backend/models/Page.js] and of the [GET /:slug] dispatcher of
    [backend/routes/pages.js], followed by the properties the specification
    states about them.

    Conventions.
    - A JavaScript string is a [string]; the examples stay within ASCII.
    - An optional JSON field is an [option]; [None] stands for an absent
      field (or one of the wrong shape, e.g. a non-array where the code
      tests [Array.isArray]).
    - A row ([vars]) is an association list in [Object.keys] order; its
      values are strings, as the CSV parser produces them.
    - A [throw] is the [Throw] outcome; a [while] loop takes fuel and
      reports [OutOfFuel] when it is exhausted.
    - Third-party code (the [slugify] package, the regular-expression
      engine behind [String.prototype.replace], Mongoose validation, the
      EJS renderer) enters as a parameter; a concrete instance of each is
      given for the examples. *)

From Stdlib Require Import String Ascii List Bool Arith Lia Permutation.
From Stdlib Require Import Decimal DecimalNat DecimalString.
From Stdlib Require Import ZArith.
Import ListNotations.
Open Scope list_scope.
Open Scope string_scope.
Set Warnings "-register-all".

(* ================================================================= *)
(** ** JavaScript primitives *)

Module JS.

(** Truthiness of a string: only the empty string is falsy. *)
Definition truthy (s : string) : bool :=
  match s with
  | EmptyString => false
  | String _ _ => true
  end.

(** [x || d] where [x] is a possibly absent string. *)
Definition or_else (x : option string) (d : string) : string :=
  match x with
  | Some s => if truthy s then s else d
  | None => d
  end.

(** [x || y] where both sides may be [undefined]. *)
Definition or_opt (x y : option string) : option string :=
  match x with
  | Some s => if truthy s then Some s else y
  | None => y
  end.

(** Template-literal rendering of a non-negative integer counter. *)
Definition number_to_string (n : nat) : string :=
  NilEmpty.string_of_uint (Nat.to_uint n).

(** [vars[key]] on an object given by its own entries. *)
Fixpoint prop (key : string) (o : list (string * string)) : option string :=
  match o with
  | [] => None
  | (k, v) :: o' => if String.eqb k key then Some v else prop key o'
  end.

Definition keys {A} (o : list (string * A)) : list string := map fst o.

(** [arr.includes(x)] on an array of strings. *)
Definition includes (arr : list string) (x : string) : bool :=
  existsb (String.eqb x) arr.

(** [arr.join(sep)]. *)
Fixpoint join (sep : string) (arr : list string) : string :=
  match arr with
  | [] => ""
  | [x] => x
  | x :: rest => x ++ sep ++ join sep rest
  end.

Fixpoint drop (n : nat) (s : string) : string :=
  match n, s with
  | O, _ => s
  | S n', String _ s' => drop n' s'
  | S _, EmptyString => EmptyString
  end.

Fixpoint starts_with (p s : string) : bool :=
  match p, s with
  | EmptyString, _ => true
  | String a p', String b s' => Ascii.eqb a b && starts_with p' s'
  | String _ _, EmptyString => false
  end.

Fixpoint contains_char (c : ascii) (s : string) : bool :=
  match s with
  | EmptyString => false
  | String a s' => Ascii.eqb a c || contains_char c s'
  end.

(** [GetSubstitution] for a pattern without capture groups: in the
    replacement text [$$] is a dollar sign, [$&] the matched text,
    [$`] the text before the match and [$'] the text after it; any
    other [$] stands for itself. *)
Fixpoint get_substitution (matched before after templ : string) : string :=
  match templ with
  | EmptyString => EmptyString
  | String c rest =>
      if Ascii.eqb c "$" then
        match rest with
        | String d rest' =>
            if Ascii.eqb d "$" then
              String "$" (get_substitution matched before after rest')
            else if Ascii.eqb d "&" then
              matched ++ get_substitution matched before after rest'
            else if Ascii.eqb d "`" then
              before ++ get_substitution matched before after rest'
            else if Ascii.eqb d "'" then
              after ++ get_substitution matched before after rest'
            else String "$" (get_substitution matched before after rest)
        | EmptyString => String "$" EmptyString
        end
      else String c (get_substitution matched before after rest)
  end.

(** [s.replace(/pat/g, templ)] for a pattern [pat] that matches exactly
    the non-empty literal text [pat]: matches are found left to right
    and do not overlap; the scan resumes after each match, in the
    original string.  [before] is the text already scanned and [skip]
    the number of characters of the current match still to pass. *)
Fixpoint replace_from (pat templ before : string) (skip : nat) (s : string)
  : string :=
  match s with
  | EmptyString => EmptyString
  | String c s' =>
      match skip with
      | S n => replace_from pat templ (before ++ String c "") n s'
      | O =>
          if starts_with pat s then
            get_substitution pat before (drop (String.length pat) s) templ
              ++ replace_from pat templ (before ++ String c "")
                              (String.length pat - 1) s'
          else
            String c (replace_from pat templ (before ++ String c "") 0 s')
      end
  end.

Definition replace_literal (pat templ s : string) : string :=
  replace_from pat templ "" 0 s.

(** ** Patterns that match literally

    [fill] builds its pattern from the field name, unescaped.  The pattern
    [{key}] matches exactly the text [{key}] when [key] holds none of the
    characters that mean something in a pattern and [{key}] is not a
    quantifier ([{2}], [{2,}], [{2,5}]), which the constructor rejects as
    having nothing to repeat. *)

Definition regex_special : string := "^$\.*+?()[]{}|".

Fixpoint all_chars (f : ascii -> bool) (s : string) : bool :=
  match s with
  | EmptyString => true
  | String c s' => f c && all_chars f s'
  end.

Definition is_digit (c : ascii) : bool :=
  let n := nat_of_ascii c in (Nat.leb 48 n && Nat.leb n 57)%bool.

Fixpoint skip_digits (s : string) : string :=
  match s with
  | EmptyString => EmptyString
  | String c s' => if is_digit c then skip_digits s' else s
  end.

Definition quantifier_body (key : string) : bool :=
  match key with
  | EmptyString => false
  | String c _ =>
      is_digit c &&
      match skip_digits key with
      | EmptyString => true
      | String d rest =>
          Ascii.eqb d "," &&
          match skip_digits rest with
          | EmptyString => true
          | String _ _ => false
          end
      end
  end.

Definition literal_key (key : string) : bool :=
  all_chars (fun c => negb (contains_char c regex_special)) key
  && negb (quantifier_body key).

End JS.

(* ================================================================= *)
(** ** Outcomes of fallible, possibly looping code *)

Inductive error : Type :=
| SyntaxError (pattern : string)
    (* [new RegExp(pattern, 'g')] rejected the pattern *)
| TemplateProcessingError (cause : error)
    (* the wrapper thrown by the [catch] of [processTemplate] *)
| ValidationError
    (* Mongoose schema validation rejected the document *)
| DuplicateKeyError (slug : string).
    (* the unique index on [slug] rejected the insert *)

Inductive outcome (A : Type) : Type :=
| Return (x : A)
| Throw (e : error)
| OutOfFuel.
Arguments Return {A} x.
Arguments Throw {A} e.
Arguments OutOfFuel {A}.

Definition bind {A B} (m : outcome A) (f : A -> outcome B) : outcome B :=
  match m with
  | Return x => f x
  | Throw e => Throw e
  | OutOfFuel => OutOfFuel
  end.

Notation "x <- m ;; k" := (bind m (fun x => k))
  (at level 61, m at next level, right associativity).

(** [arr.map(f)] where [f] may throw: elements are visited in order and the
    first throw ends the traversal. *)
Fixpoint map_outcome {A B} (f : A -> outcome B) (l : list A)
  : outcome (list B) :=
  match l with
  | [] => Return []
  | x :: l' =>
      y <- f x ;;
      ys <- map_outcome f l' ;;
      Return (y :: ys)
  end.

(** [try { m } catch (e) { throw h(e) }]. *)
Definition rethrow {A} (h : error -> error) (m : outcome A) : outcome A :=
  match m with
  | Throw e => Throw (h e)
  | _ => m
  end.

(* ================================================================= *)
(** ** Data model *)

(** A row of the dataset: the entries of the [vars] object, in
    [Object.keys] order. *)
Definition Row : Type := list (string * string).

(** A question/answer pair; a field is [None] when the property is
    missing. *)
Record FaqItem : Type := mkFaqItem {
  q : option string;
  a : option string
}.

(** JSON values, for the structured-data object. *)
Inductive json : Type :=
| JNull
| JStr (s : string)
| JArr (items : list json)
| JObj (fields : list (string * json)).

(** The template of a batch, as found in the request body. *)
Record Template : Type := mkTemplate {
  tpl_templateKey : option string;
  tpl_title : option string;
  tpl_metaDescription : option string;
  tpl_h1 : option string;
  tpl_variables : option (list string);
  tpl_sections : option (list string);
  tpl_faq : option (list FaqItem)
}.

(** What [processTemplate] resolves to. *)
Record Processed : Type := mkProcessed {
  pr_title : string;
  pr_metaDescription : string;
  pr_h1 : string;
  pr_sections : list string;
  pr_faq : list FaqItem;
  pr_templateKey : string;
  pr_faqSchema : json;
  pr_slug : string
}.

(** A document of the [Page] collection ([models/Page.js]); the two
    timestamps play no part in what follows and are left out. *)
Record Page : Type := mkPage {
  slug : string;
  title : string;
  metaDescription : string;
  h1 : string;
  sections : list string;
  faq : list FaqItem;
  faqSchema : json;
  vars : Row;
  templateKey : string
}.

(* ================================================================= *)
(** ** utils/templating.js *)

Module Templating.

(** The placeholder of a field, which is also the source text of the
    regular expression built for it. *)
Definition token (key : string) : string := "{" ++ key ++ "}".

Section Fill.

(** [subject.replace(new RegExp(source, 'g'), replacement)]; [None] when
    the constructor rejects [source]. *)
Variable regex_replace : string -> string -> string -> option string.

(** The [forEach] over the keys of [vars]; the entry of a key carries
    [vars[key]]. *)
Fixpoint fill_keys (entries : Row) (result : string) : outcome string :=
  match entries with
  | [] => Return result
  | (key, value) :: rest =>
      match regex_replace (token key) (JS.or_else (Some value) "") result with
      | Some result' => fill_keys rest result'
      | None => Throw (SyntaxError (token key))
      end
  end.

Definition fill (str : string) (vars : Row) : outcome string :=
  if negb (JS.truthy str) then Return str
  else fill_keys vars str.

End Fill.

(** *** Flat texts and one-pass substitution

    The substitution the specification describes, on texts that are a
    sequence of plain text and [{name}] tokens: each token whose name is a
    field of the row becomes the value of the field, every other token
    stays, and nothing is looked at twice. *)

Inductive segment : Type :=
| Lit (text : string)
| Tok (name : string).

Fixpoint render (segments : list segment) : string :=
  match segments with
  | [] => ""
  | Lit text :: rest => text ++ render rest
  | Tok name :: rest => token name ++ render rest
  end.

(** Plain text holds no opening brace; a token name holds no brace. *)
Definition flat_segment (seg : segment) : bool :=
  match seg with
  | Lit text => negb (JS.contains_char "{" text)
  | Tok name =>
      negb (JS.contains_char "{" name) && negb (JS.contains_char "}" name)
  end.

Definition flat (segments : list segment) : bool :=
  forallb flat_segment segments.

(** What the pass of one field does to a segment. *)
Definition pass_segment (key value : string) (seg : segment) : segment :=
  match seg with
  | Lit text => Lit text
  | Tok name => if String.eqb key name then Lit value else Tok name
  end.

Definition resolve_segment (vars : Row) (seg : segment) : segment :=
  match seg with
  | Lit text => Lit text
  | Tok name =>
      match JS.prop name vars with
      | Some value => Lit value
      | None => Tok name
      end
  end.

Definition substitute_once (vars : Row) (segments : list segment)
  : list segment :=
  map (resolve_segment vars) segments.

(** A value that brings no opening brace and no [$] pattern. *)
Definition plain_value (value : string) : bool :=
  negb (JS.contains_char "{" value) && negb (JS.contains_char "$" value).

(** A row whose keys give literal patterns and whose values are plain. *)
Definition plain_row (vars : Row) : bool :=
  forallb (fun entry => JS.literal_key (fst entry) && plain_value (snd entry))
          vars.

(** What is assumed of the regular-expression engine: on the pattern of a
    literal key it replaces the occurrences of the token. *)
Definition literal_engine
    (regex_replace : string -> string -> string -> option string) : Prop :=
  forall key replacement subject,
    JS.literal_key key = true ->
    regex_replace (token key) replacement subject
    = Some (JS.replace_literal (token key) replacement subject).

Section MakeUniqueSlug.

(** [slugify(keyword, { lower: true, strict: true, remove: ... })]. *)
Variable slugify : string -> string.

(** The [while] loop; [probes] records, in order, the candidates handed to
    [checkExists]. *)
Fixpoint makeUniqueSlug_loop (fuel : nat) (checkExists : string -> bool)
    (baseSlug finalSlug : string) (counter : nat) (probes : list string)
  : outcome (string * list string) :=
  match fuel with
  | O => OutOfFuel
  | S fuel' =>
      if checkExists finalSlug then
        makeUniqueSlug_loop fuel' checkExists baseSlug
          (baseSlug ++ "-" ++ JS.number_to_string counter)
          (S counter) (probes ++ [finalSlug])%list
      else Return (finalSlug, (probes ++ [finalSlug])%list)
  end.

(** [checkExists] is [None] when the argument is not a function.  The
    result pairs the slug with the list of candidates that were checked. *)
Definition makeUniqueSlug (fuel : nat) (keyword : string)
    (checkExists : option (string -> bool)) : outcome (string * list string) :=
  if negb (JS.truthy keyword) then Return ("", [])
  else
    let baseSlug := slugify keyword in
    match checkExists with
    | None => Return (baseSlug, [])
    | Some check => makeUniqueSlug_loop fuel check baseSlug baseSlug 1 []
    end.

End MakeUniqueSlug.

(** The candidates in the order the loop tries them: [base], [base-1],
    [base-2], ... *)
Definition candidate (baseSlug : string) (k : nat) : string :=
  match k with
  | O => baseSlug
  | S _ => baseSlug ++ "-" ++ JS.number_to_string k
  end.

Definition truthy_field (x : option string) : bool :=
  match x with
  | Some s => JS.truthy s
  | None => false
  end.

Definition json_of_field (x : option string) : json :=
  match x with
  | Some s => JStr s
  | None => JNull
  end.

Definition faq_question (faq : FaqItem) : json :=
  JObj [ ("@type", JStr "Question");
         ("name", json_of_field (q faq));
         ("acceptedAnswer",
           JObj [ ("@type", JStr "Answer");
                  ("text", json_of_field (a faq)) ]) ].

Definition buildFaqSchema (faqArray : list FaqItem) : json :=
  match faqArray with
  | [] => JObj []
  | _ =>
      let validFaqs :=
        filter (fun faq => truthy_field (q faq) && truthy_field (a faq))
               faqArray in
      match validFaqs with
      | [] => JObj []
      | _ =>
          JObj [ ("@context", JStr "https://schema.org");
                 ("@type", JStr "FAQPage");
                 ("mainEntity", JArr (map faq_question validFaqs)) ]
      end
  end.

(** A pair that has both a question and an answer. *)
Definition complete_pair (faq : FaqItem) : bool :=
  truthy_field (q faq) && truthy_field (a faq).

Fixpoint json_field (key : string) (fields : list (string * json))
  : option json :=
  match fields with
  | [] => None
  | (k, v) :: rest => if String.eqb k key then Some v else json_field key rest
  end.

(** The question/answer entries a structured-data object holds. *)
Definition faq_entries (schema : json) : list json :=
  match schema with
  | JObj fields =>
      match json_field "mainEntity" fields with
      | Some (JArr entries) => entries
      | _ => []
      end
  | _ => []
  end.

Record Validation : Type := mkValidation {
  isValid : bool;
  missing : list string;
  error_message : option string
}.

Definition validateTemplate (template : Template) (csvHeaders : list string)
  : Validation :=
  match tpl_variables template with
  | None => mkValidation false [] (Some "Template must have a variables array")
  | Some variables =>
      let missing :=
        filter (fun variable => negb (JS.includes csvHeaders variable))
               variables in
      mkValidation
        (Nat.eqb (List.length missing) 0)
        missing
        (if Nat.ltb 0 (List.length missing)
         then Some ("Missing CSV columns: " ++ JS.join ", " missing)
         else None)
  end.

Section ProcessTemplate.

Variable regex_replace : string -> string -> string -> option string.
Variable slugify : string -> string.

(** [vars[Object.keys(vars)[0]]]. *)
Definition first_value (vars : Row) : option string :=
  match vars with
  | [] => None
  | (_, v) :: _ => Some v
  end.

Definition processTemplate (fuel : nat) (template : Template) (vars : Row)
    (checkSlugExists : option (string -> bool)) : outcome Processed :=
  rethrow TemplateProcessingError (
    title <- fill regex_replace (JS.or_else (tpl_title template) "") vars ;;
    metaDescription <-
      fill regex_replace (JS.or_else (tpl_metaDescription template) "") vars ;;
    h1 <- fill regex_replace (JS.or_else (tpl_h1 template) "") vars ;;
    sections <-
      match tpl_sections template with
      | Some l => map_outcome (fun section => fill regex_replace section vars) l
      | None => Return []
      end ;;
    faq <-
      match tpl_faq template with
      | Some l =>
          map_outcome
            (fun faqItem =>
               fq <- fill regex_replace (JS.or_else (q faqItem) "") vars ;;
               fa <- fill regex_replace (JS.or_else (a faqItem) "") vars ;;
               Return (mkFaqItem (Some fq) (Some fa)))
            l
      | None => Return []
      end ;;
    let faqSchema := buildFaqSchema faq in
    let primaryKeyword :=
      JS.or_else (JS.or_opt (JS.prop "keyword" vars) (first_value vars)) "" in
    allocated <- makeUniqueSlug slugify fuel primaryKeyword checkSlugExists ;;
    Return (mkProcessed title metaDescription h1 sections faq
              (JS.or_else (tpl_templateKey template) "default")
              faqSchema (fst allocated))).

End ProcessTemplate.

End Templating.

(* ================================================================= *)
(** ** models/Page.js: the [Page] collection *)

Module PageModel.

(** The collection, oldest document first. *)
Definition Store : Type := list Page.

Definition has_slug (s : string) (page : Page) : bool := String.eqb (slug page) s.

(** [Page.findOne({ slug })]. *)
Definition findOne (store : Store) (s : string) : option Page :=
  find (has_slug s) store.

Definition slugs (store : Store) : list string := map slug store.

Section Save.

(** Schema validation as run by [save()]: the [required] and type
    validators of the schema. *)
Variable validate : Page -> bool.

(** [new Page(pageData).save()]: validation first, then the insert, which
    the unique index on [slug] may reject. *)
Definition save (store : Store) (page : Page) : outcome Store :=
  if negb (validate page) then Throw ValidationError
  else if existsb (has_slug (slug page)) store
       then Throw (DuplicateKeyError (slug page))
       else Return (store ++ [page])%list.

End Save.

(** [Page.find({ templateKey, slug: { $ne: slug } }).limit(6)]. *)
Definition find_related (store : Store) (page : Page) : list Page :=
  firstn 6
    (filter (fun other =>
               String.eqb (templateKey other) (templateKey page)
               && negb (String.eqb (slug other) (slug page)))
            store).

End PageModel.

(* ================================================================= *)
(** ** routes/admin.js: [POST /generate] *)

Module Admin.
Import PageModel.

Record Results : Type := mkResults {
  success : nat;
  skipped : nat;
  errors : nat;
  pages : list (string * string)   (* [{ slug, title }] *)
}.

Inductive response : Type :=
| Status400 (error_text : option string) (missing : option (list string))
| Status200 (message : string) (results : Results).

(** State of the handler while it walks the rows: the collection, the
    [results] object and what [console.error] has printed (row number and
    error). *)
Record State : Type := mkState {
  st_store : Store;
  st_results : Results;
  st_log : list (nat * error)
}.

(** The [{ slug, title }] entry that the summary holds for a page. *)
Definition summary_entry (page : Page) : string * string :=
  (slug page, title page).

Section Generate.

Variable regex_replace : string -> string -> string -> option string.
Variable slugify : string -> string.
Variable validate : Page -> bool.

Definition checkSlugExists (store : Store) (s : string) : bool :=
  match findOne store s with
  | Some _ => true
  | None => false
  end.

(** The body of the [try] block for one row. *)
Definition process_row (fuel : nat) (template : Template) (store : Store)
    (rowData : Row) : outcome (Store * Processed) :=
  processedData <-
    Templating.processTemplate regex_replace slugify fuel template rowData
      (Some (checkSlugExists store)) ;;
  let finalSlug := pr_slug processedData in
  let pageData :=
    mkPage finalSlug (pr_title processedData)
      (pr_metaDescription processedData) (pr_h1 processedData)
      (pr_sections processedData) (pr_faq processedData)
      (pr_faqSchema processedData) rowData (pr_templateKey processedData) in
  store' <- save validate store pageData ;;
  Return (store', processedData).

(** The [for] loop; [i] is the index of the first row of [rows]. *)
Fixpoint generate_rows (fuel : nat) (template : Template) (rows : list Row)
    (i : nat) (st : State) : outcome State :=
  match rows with
  | [] => Return st
  | rowData :: rest =>
      let r := st_results st in
      match process_row fuel template (st_store st) rowData with
      | Return (store', processedData) =>
          generate_rows fuel template rest (S i)
            (mkState store'
               (mkResults (S (success r)) (skipped r) (errors r)
                  (pages r ++ [(pr_slug processedData,
                                pr_title processedData)])%list)
               (st_log st))
      | Throw e =>
          generate_rows fuel template rest (S i)
            (mkState (st_store st)
               (mkResults (success r) (skipped r) (S (errors r)) (pages r))
               (st_log st ++ [(i + 1, e)])%list)
      | OutOfFuel => OutOfFuel
      end
  end.

(** The handler: the collection before, the request body; the state
    reached and the response sent. *)
Definition generate (fuel : nat) (store : Store) (rows : list Row)
    (template : option Template) : outcome (State * response) :=
  let untouched := mkState store (mkResults 0 0 0 []) [] in
  match rows with
  | [] => Return (untouched, Status400 (Some "No data rows provided") None)
  | first_row :: _ =>
      match template with
      | None => Return (untouched, Status400 (Some "No template provided") None)
      | Some template =>
          let headers := JS.keys first_row in
          let templateValidation :=
            Templating.validateTemplate template headers in
          if negb (Templating.isValid templateValidation) then
            Return (untouched,
                    Status400 (Templating.error_message templateValidation)
                              (Some (Templating.missing templateValidation)))
          else
            st <- generate_rows fuel template rows 0 untouched ;;
            Return (st,
                    Status200
                      ("Generated "
                         ++ JS.number_to_string (success (st_results st))
                         ++ " pages successfully")
                      (st_results st))
      end
  end.

End Generate.

End Admin.

(* ================================================================= *)
(** ** routes/pages.js: [GET /:slug] *)

Module Pages.
Import PageModel.

Record TemplateDef : Type := mkTemplateDef {
  variant : option string;
  view : option string;
  legacyInline : bool
}.

(** The own properties of the [TEMPLATE_MAP] object literal. *)
Definition TEMPLATE_MAP : list (string * TemplateDef) :=
  [ ("minimal",
      mkTemplateDef (Some "basic") (Some "page_template_minimal") false);
    ("local-seo",
      mkTemplateDef (Some "basic") (Some "page_template_minimal") false);
    ("service-landing",
      mkTemplateDef (Some "service") (Some "page_template_modern_blue") false);
    ("modern-blue",
      mkTemplateDef (Some "service") (Some "page_template_modern_blue") false);
    ("dark-pastel",
      mkTemplateDef (Some "dark") (Some "page_template_dark_pastel") false);
    ("faq-rich", mkTemplateDef (Some "faq") None true) ].

(** What an object literal inherits from [Object.prototype]. *)
Definition object_prototype_members : list string :=
  [ "constructor"; "hasOwnProperty"; "isPrototypeOf"; "propertyIsEnumerable";
    "toLocaleString"; "toString"; "valueOf"; "__proto__";
    "__defineGetter__"; "__defineSetter__";
    "__lookupGetter__"; "__lookupSetter__" ].

(** The value of a property read on [TEMPLATE_MAP]: one of its own
    entries, or a member inherited from the prototype (a function, or the
    prototype object itself for [__proto__]). *)
Inductive js_value : Type :=
| Own (def : TemplateDef)
| Inherited (member : string).

Fixpoint own_property (key : string) (entries : list (string * TemplateDef))
  : option TemplateDef :=
  match entries with
  | [] => None
  | (k, d) :: rest => if String.eqb k key then Some d else own_property key rest
  end.

(** [TEMPLATE_MAP[key]]; [None] is [undefined]. *)
Definition get (key : string) : option js_value :=
  match own_property key TEMPLATE_MAP with
  | Some d => Some (Own d)
  | None =>
      if JS.includes object_prototype_members key
      then Some (Inherited key)
      else None
  end.

(** [TEMPLATE_MAP[key] || TEMPLATE_MAP['minimal']]: every value found is an
    object or a function, hence truthy. *)
Definition resolve (key : string) : option js_value :=
  match get key with
  | Some v => Some v
  | None => get "minimal"
  end.

Definition get_legacyInline (v : js_value) : bool :=
  match v with
  | Own d => legacyInline d
  | Inherited _ => false
  end.

Definition get_view (v : js_value) : option string :=
  match v with
  | Own d => view d
  | Inherited _ => None
  end.

Definition get_variant (v : js_value) : option string :=
  match v with
  | Own d => variant d
  | Inherited _ => None
  end.

(** A possibly undefined value inside a template literal. *)
Definition interpolate (x : option string) : string :=
  match x with
  | Some s => s
  | None => "undefined"
  end.

Definition dquote : string := String (Ascii.ascii_of_nat 34) EmptyString.

Definition not_found_html (s : string) : string :=
  "<!DOCTYPE html><html><head><title>Page Not Found</title><style>"
  ++ "body{font-family:Arial, sans-serif;margin:40px;text-align:center;}"
  ++ "h1{color:#333;}a{color:#4f46e5;text-decoration:none;}</style></head>"
  ++ "<body><h1>Page Not Found</h1><p>The page " ++ dquote ++ s ++ dquote
  ++ " does not exist.</p><p><a href=" ++ dquote ++ "/" ++ dquote
  ++ ">← Back to Home</a> | <a href=" ++ dquote ++ "/admin" ++ dquote
  ++ ">Admin Panel</a></p></body></html>".

Definition server_error_html : string :=
  "<!DOCTYPE html><html><head><title>Server Error</title></head><body style="
  ++ dquote ++ "font-family:Arial, sans-serif;margin:40px;text-align:center;"
  ++ dquote ++ "><h1>Server Error</h1><p>There was an error loading this "
  ++ "page.</p><p><a href=" ++ dquote ++ "/" ++ dquote
  ++ ">← Back to Home</a></p></body></html>".

(** The parts of a rendered page that vary; the fixed markup around them
    is not reproduced. *)
Record Document : Type := mkDocument {
  doc_title : string;
  doc_description : string;
  doc_variant : string;            (* the suffix of [class="variant-..."] *)
  doc_main : string;               (* the content of [<main>] *)
  doc_structured_data : option json
}.

Inductive response : Type :=
| Status404 (html : string)
| Status200 (doc : Document)
| Status500 (html : string).

(** [page.faqSchema && Object.keys(page.faqSchema).length]. *)
Definition structured_data (page : Page) : option json :=
  match faqSchema page with
  | JObj (_ :: _) => Some (faqSchema page)
  | JArr (_ :: _) => Some (faqSchema page)
  | JStr (String _ _) => Some (faqSchema page)
  | _ => None
  end.

Section Render.

(** [ejs.renderFile] on a file of the views directory, with the page and
    its related pages as data; [None] when the promise is rejected (the
    file cannot be read, or the view throws). *)
Variable renderFile : string -> Page -> list Page -> option string.

(** The markup the handler assembles itself for the [legacyInline]
    template. *)
Variable legacy_markup : Page -> list Page -> string.

Definition render (store : Store) (s : string) : response :=
  match findOne store s with
  | None => Status404 (not_found_html s)
  | Some page =>
      match resolve (templateKey page) with
      | None => Status500 server_error_html
      | Some templateDef =>
          let relatedPages := find_related store page in
          if get_legacyInline templateDef then
            Status200
              (mkDocument (title page) (metaDescription page) "faq"
                 (legacy_markup page relatedPages) (structured_data page))
          else
            match renderFile (interpolate (get_view templateDef) ++ ".ejs")
                             page relatedPages with
            | Some bodyHtml =>
                Status200
                  (mkDocument (title page) (metaDescription page)
                     (interpolate (get_variant templateDef))
                     bodyHtml (structured_data page))
            | None => Status500 server_error_html
            end
      end
  end.

End Render.

End Pages.

(* ================================================================= *)
(** ** Stand-ins for the third-party code

    Concrete instances of the parameters above, used to run the model on
    examples.  The general theorems do not depend on them. *)

Module Reference.

(** *** The [slugify] package on ASCII text

    [slugify(s, { lower: true, strict: true, remove: ... })] with the
    [remove] set of [makeUniqueSlug] (the characters of [removed] below):
    each character is mapped through the package's character table, a
    hyphen becomes a space, and the characters of [remove] are dropped;
    [strict] then keeps letters, digits and white space only; the text is
    trimmed, each run of white space becomes one hyphen, and the result is
    lower-cased. *)

Definition is_space (c : ascii) : bool :=
  let n := nat_of_ascii c in
  Nat.eqb n 32 || (Nat.leb 9 n && Nat.leb n 13).

Definition is_alnum (c : ascii) : bool :=
  let n := nat_of_ascii c in
  (Nat.leb 48 n && Nat.leb n 57) || (Nat.leb 65 n && Nat.leb n 90)
  || (Nat.leb 97 n && Nat.leb n 122).

Definition to_lower (c : ascii) : ascii :=
  let n := nat_of_ascii c in
  if Nat.leb 65 n && Nat.leb n 90 then ascii_of_nat (n + 32) else c.

(** The ASCII entries of the character table. *)
Definition charMap (c : ascii) : option string :=
  if Ascii.eqb c "$" then Some "dollar"
  else if Ascii.eqb c "%" then Some "percent"
  else if Ascii.eqb c "&" then Some "and"
  else if Ascii.eqb c "<" then Some "less"
  else if Ascii.eqb c ">" then Some "greater"
  else if Ascii.eqb c "|" then Some "or"
  else None.

Definition removed (c : ascii) : bool :=
  JS.contains_char c ("*+~.()'!:@" ++ Pages.dquote).

Fixpoint string_filter (f : ascii -> bool) (s : string) : string :=
  match s with
  | EmptyString => EmptyString
  | String c s' => if f c then String c (string_filter f s') else string_filter f s'
  end.

Fixpoint string_map (f : ascii -> ascii) (s : string) : string :=
  match s with
  | EmptyString => EmptyString
  | String c s' => String (f c) (string_map f s')
  end.

Fixpoint transliterate (s : string) : string :=
  match s with
  | EmptyString => EmptyString
  | String ch rest =>
      let appendChar :=
        match charMap ch with
        | Some word => word
        | None => String ch EmptyString
        end in
      let appendChar := if String.eqb appendChar "-" then " " else appendChar in
      string_filter (fun c => negb (removed c)) appendChar ++ transliterate rest
  end.

Fixpoint trim_start (s : string) : string :=
  match s with
  | EmptyString => EmptyString
  | String c s' => if is_space c then trim_start s' else s
  end.

Fixpoint trim_end (s : string) : string :=
  match s with
  | EmptyString => EmptyString
  | String c s' =>
      match trim_end s' with
      | EmptyString => if is_space c then EmptyString else String c EmptyString
      | kept => String c kept
      end
  end.

(** [s.replace(/\s+/g, '-')]; [in_run] tells that the previous character
    was white space. *)
Fixpoint hyphenate (in_run : bool) (s : string) : string :=
  match s with
  | EmptyString => EmptyString
  | String c s' =>
      if is_space c then
        if in_run then hyphenate true s' else String "-" (hyphenate true s')
      else String c (hyphenate false s')
  end.

Definition slugify (s : string) : string :=
  let slug := transliterate s in
  let slug := string_filter (fun c => is_alnum c || is_space c) slug in
  let slug := trim_end (trim_start slug) in
  let slug := hyphenate false slug in
  string_map to_lower slug.

(** *** Regular expressions built from literal keys

    The engine on the patterns [fill] builds from literal keys and from
    quantifier-shaped keys.  Other patterns are outside this instance,
    which answers [None] for them; no example uses one. *)

Fixpoint before_closing_brace (s : string) : option string :=
  match s with
  | EmptyString => None
  | String c rest =>
      match rest with
      | EmptyString => if Ascii.eqb c "}" then Some EmptyString else None
      | String _ _ => option_map (String c) (before_closing_brace rest)
      end
  end.

Definition token_key (pattern : string) : option string :=
  match pattern with
  | String c rest => if Ascii.eqb c "{" then before_closing_brace rest else None
  | EmptyString => None
  end.

Definition regex_replace (pattern replacement subject : string)
  : option string :=
  match token_key pattern with
  | Some key =>
      if JS.literal_key key
      then Some (JS.replace_literal pattern replacement subject)
      else None
  | None => None
  end.

(** *** Mongoose validation of a [Page]

    The [required] validators of the schema: a required string must be
    non-empty. *)

Definition validate (page : Page) : bool :=
  JS.truthy (slug page) && JS.truthy (title page)
  && JS.truthy (metaDescription page) && JS.truthy (h1 page)
  && JS.truthy (templateKey page)
  && forallb JS.truthy (sections page)
  && forallb (fun item => Templating.truthy_field (q item)
                          && Templating.truthy_field (a item))
             (faq page).

(** *** A views directory holding the three templates the map names *)

Definition renderFile (file : string) (page : Page) (related : list Page)
  : option string :=
  if JS.includes [ "page_template_minimal.ejs";
                   "page_template_modern_blue.ejs";
                   "page_template_dark_pastel.ejs" ] file
  then Some ("<h1>" ++ h1 page ++ "</h1>")
  else None.

Definition legacy_markup (page : Page) (related : list Page) : string :=
  "<h1>" ++ h1 page ++ "</h1>".

End Reference.

(* ================================================================= *)
(** ** Example data *)

Module Examples.

(** An existence predicate that is true exactly on [foo] and [foo-1]. *)
Definition foo_taken (s : string) : bool :=
  String.eqb s "foo" || String.eqb s "foo-1".

(** An existence predicate that is true exactly on the empty slug. *)
Definition empty_taken (s : string) : bool := String.eqb s "".

Definition plumber_row : Row := [("keyword", "plumber"); ("city", "Reno")].

(** A row whose fields are all blank: its seed is empty. *)
Definition blank_row : Row := [("keyword", ""); ("city", "")].

(** A row without the [city] column. *)
Definition keyword_only_row : Row := [("keyword", "plumber")].

Definition city_template : Template :=
  mkTemplate (Some "minimal")
             (Some "{keyword} in {city}")
             (Some "Find a {keyword} in {city}")
             (Some "{keyword}")
             (Some ["city"; "keyword"])
             None None.

(** A row one of whose values is the token of a later field. *)
Definition nested_row : Row := [("a", "{b}"); ("b", "X")].

(** The same fields, the other way round. *)
Definition nested_row_swapped : Row := [("b", "X"); ("a", "{b}")].

(** A row one of whose values is the token of an earlier field. *)
Definition backward_row : Row := [("a", "x"); ("b", "{a}")].

(** The text [{keyword} in {city}, {state}]. *)
Definition title_segments : list Templating.segment :=
  [ Templating.Tok "keyword"; Templating.Lit " in "; Templating.Tok "city";
    Templating.Lit ", "; Templating.Tok "state" ].

Definition plumber_row_swapped : Row :=
  [("city", "Reno"); ("keyword", "plumber")].

(** A template whose key is the name of a member of [Object.prototype]. *)
Definition constructor_template : Template :=
  mkTemplate (Some "constructor")
             (Some "{keyword} in {city}")
             (Some "Find a {keyword} in {city}")
             (Some "{keyword}")
             (Some ["city"; "keyword"])
             None None.

(** A template whose key the map does not know. *)
Definition unknown_key_template : Template :=
  mkTemplate (Some "landing-v2")
             (Some "{keyword} in {city}")
             (Some "Find a {keyword} in {city}")
             (Some "{keyword}")
             (Some ["city"; "keyword"])
             None None.

(** The collection after one plumber row has been generated, from an empty
    collection, with the given template. *)
Definition generated_store (template : Template) : PageModel.Store :=
  match Admin.generate Reference.regex_replace Reference.slugify
          Reference.validate 2 [] [plumber_row] (Some template) with
  | Return (st, _) => Admin.st_store st
  | _ => []
  end.

(** Two plumbers around a blank row. *)
Definition plumber_batch : list Row := [plumber_row; blank_row; plumber_row].

End Examples.

(* ================================================================= *)
(** ** More JavaScript primitives *)

Module JSText.

(** [s.trim()], on ASCII white space. *)
Definition trim (s : string) : string :=
  Reference.trim_end (Reference.trim_start s).

(** [s.toLowerCase()], on ASCII letters. *)
Definition toLowerCase (s : string) : string :=
  Reference.string_map Reference.to_lower s.

(** [s.split(sep)] for a separator of one character. *)
Fixpoint split_char (sep : ascii) (s : string) : list string :=
  match s with
  | EmptyString => [EmptyString]
  | String c s' =>
      if Ascii.eqb c sep then EmptyString :: split_char sep s'
      else
        match split_char sep s' with
        | [] => [String c EmptyString]
        | part :: parts => String c part :: parts
        end
  end.

(** [s.endsWith(suffix)]. *)
Fixpoint ends_with (suffix s : string) : bool :=
  match s with
  | EmptyString => String.eqb suffix EmptyString
  | String _ s' => String.eqb suffix s || ends_with suffix s'
  end.

(** What [row[key]] reads on an object whose own values are strings: an
    own value, a member inherited from [Object.prototype], or
    [undefined]. *)
Inductive property_value : Type :=
| OwnValue (value : string)
| InheritedMember
| Undefined.

Definition get_property (o : Row) (key : string) : property_value :=
  match JS.prop key o with
  | Some value => OwnValue value
  | None =>
      if JS.includes Pages.object_prototype_members key
      then InheritedMember
      else Undefined
  end.

(** [value && value.toString().trim() !== ''] on a string. *)
Definition non_blank (value : string) : bool :=
  JS.truthy value && JS.truthy (trim value).

End JSText.

(* ================================================================= *)
(** ** utils/csv.js *)

Module Csv.

Record Parsed : Type := mkParsed {
  data : list Row;
  headers : list string;
  totalRows : nat
}.

(** The [complete] callback of [parseCsvToJson]: [rows] is [results.data]
    and [fields] is [results.meta.fields]. *)
Definition parse_complete (rows : list Row) (fields : option (list string))
  : Parsed :=
  let cleanData :=
    filter (fun row => existsb JSText.non_blank (map snd row)) rows in
  mkParsed cleanData
           (match fields with Some f => f | None => [] end)
           (List.length cleanData).

(** [!row[header] || row[header].toString().trim() === '']. *)
Definition blank_cell (row : Row) (header : string) : bool :=
  match JSText.get_property row header with
  | JSText.OwnValue value => negb (JSText.non_blank value)
  | JSText.InheritedMember => false
  | JSText.Undefined => true
  end.

(** The number of values of a row that are filled. *)
Definition filledFields (row : Row) : nat :=
  List.length (filter JSText.non_blank (map snd row)).

Record Validation : Type := mkValidation {
  isValid : bool;
  errors : list string;
  warnings : list string
}.

Definition commonFields : list string := ["keyword"].

(** [validateCsv(data, headers)]; [filledFields < headers.length * 0.5] is
    the comparison [2 * filledFields < headers.length]. *)
Definition validateCsv (data : list Row) (headers : list string)
  : Validation :=
  match data with
  | [] => mkValidation false
            ["CSV file is empty or contains no valid data"] []
  | _ :: _ =>
      match headers with
      | [] => mkValidation false ["CSV file must have headers"] []
      | _ :: _ =>
          let missingCommonFields :=
            filter (fun field =>
                      negb (JS.includes headers (JSText.toLowerCase field)))
                   commonFields in
          let warnings1 :=
            if Nat.ltb 0 (List.length missingCommonFields)
            then ["Consider adding these common fields: "
                    ++ JS.join ", " missingCommonFields]
            else [] in
          let emptyColumns :=
            filter (fun header =>
                      forallb (fun row => blank_cell row header) data)
                   headers in
          let warnings2 :=
            if Nat.ltb 0 (List.length emptyColumns)
            then ["Empty columns detected: " ++ JS.join ", " emptyColumns]
            else [] in
          let inconsistentRows :=
            filter (fun row =>
                      Nat.ltb (2 * filledFields row) (List.length headers))
                   data in
          let warnings3 :=
            if Nat.ltb 0 (List.length inconsistentRows)
            then [JS.number_to_string (List.length inconsistentRows)
                    ++ " rows have less than 50% of fields filled"]
            else [] in
          mkValidation true [] (warnings1 ++ warnings2 ++ warnings3)%list
      end
  end.

End Csv.

(* ================================================================= *)
(** ** routes/admin.js: the other page routes *)

Module AdminPages.
Import PageModel.

(** [Page.deleteOne({ slug })]: the first match goes; the count of deleted
    documents comes back. *)
Fixpoint deleteOne (s : string) (store : Store) : Store * nat :=
  match store with
  | [] => ([], 0)
  | page :: rest =>
      if has_slug s page then (rest, 1)
      else let (rest', n) := deleteOne s rest in (page :: rest', n)
  end.

Definition has_templateKey (key : string) (page : Page) : bool :=
  String.eqb (templateKey page) key.

(** [Page.deleteMany({ templateKey })]. *)
Definition deleteMany (key : string) (store : Store) : Store * nat :=
  (filter (fun page => negb (has_templateKey key page)) store,
   List.length (filter (has_templateKey key) store)).

(** [GET /pages/:slug]. *)
Inductive get_response : Type :=
| GetOk (page : Page)                       (* 200, [data: page] *)
| GetNotFound (error_text : string).        (* 404 *)

Definition get_page (store : Store) (s : string) : get_response :=
  match findOne store s with
  | Some page => GetOk page
  | None => GetNotFound "Page not found"
  end.

(** [DELETE /pages/:slug] and [DELETE /pages]. *)
Inductive delete_response : Type :=
| DeleteOk (message : string) (deletedCount : option nat)   (* 200 *)
| DeleteNotFound (error_text : string)                      (* 404 *)
| DeleteBadRequest (error_text : string).                   (* 400 *)

Definition delete_page (store : Store) (s : string)
  : Store * delete_response :=
  let (store', deletedCount) := deleteOne s store in
  if Nat.eqb deletedCount 0
  then (store', DeleteNotFound "Page not found")
  else (store', DeleteOk "Page deleted successfully" None).

(** [templateKey] is the query parameter, [None] when absent. *)
Definition delete_pages (store : Store) (templateKey : option string)
  : Store * delete_response :=
  if negb (Templating.truthy_field templateKey) then
    (store, DeleteBadRequest "Template key is required for bulk deletion")
  else
    let key := JS.or_else templateKey "" in
    let (store', deletedCount) := deleteMany key store in
    (store',
     DeleteOk ("Deleted " ++ JS.number_to_string deletedCount
                 ++ " pages with template key: " ++ key)
              (Some deletedCount)).

(** [GET /pages]: the listing with its pagination. *)
Record Pagination : Type := mkPagination {
  currentPage : Z;
  totalPages : Z;
  totalItems : Z;
  itemsPerPage : Z;
  hasNextPage : bool;
  hasPrevPage : bool
}.

(** The fields [select] keeps, the creation time apart. *)
Record Listed : Type := mkListed {
  l_slug : string;
  l_title : string;
  l_metaDescription : string;
  l_templateKey : string
}.

Definition listed (page : Page) : Listed :=
  mkListed (slug page) (title page) (metaDescription page) (templateKey page).

Record Listing : Type := mkListing {
  pages : list Listed;
  pagination : Pagination;
  templateKeys : list string
}.

(** The 200 answer, or the 500 answer of the [catch]. *)
Inductive list_response : Type :=
| ListOk (listing : Listing)
| ListError.

Definition pages_of (r : list_response) : list Listed :=
  match r with
  | ListOk listing => pages listing
  | ListError => []
  end.

(** [parseInt(text) || dflt], on what [parseInt] gave: [None] for [NaN],
    the integer otherwise; zero is falsy. *)
Definition parsed_or (parsed : option Z) (dflt : Z) : Z :=
  match parsed with
  | None => dflt
  | Some z => if Z.eqb z 0 then dflt else z
  end.

(** [Math.ceil(a / b)] on integers, [b] not zero. *)
Definition ceil_div (a b : Z) : Z := (- ((- a) / b))%Z.

(** A query parameter that is absent, not a number, or not negative. *)
Definition not_negative (parsed : option Z) : Prop :=
  match parsed with
  | Some z => (0 <= z)%Z
  | None => True
  end.

Section ListPages.

(** The order [sort({ createdAt: -1 })] gives to the documents found. *)
Variable sort_created_desc : list Page -> list Page.

(** [Page.distinct('templateKey')]. *)
Variable distinct_templateKeys : Store -> list string.

(** What the database returns for [.skip(skip).limit(limit)] on the
    sorted documents; [None] when it rejects the query. *)
Variable skip_limit : Z -> Z -> list Page -> option (list Page).

(** [find(query)] with the query the handler builds. *)
Definition matching (store : Store) (templateKey : option string) : list Page :=
  if Templating.truthy_field templateKey
  then filter (has_templateKey (JS.or_else templateKey "")) store
  else store.

Definition list_pages (store : Store) (page_param limit_param : option Z)
    (templateKey : option string) : list_response :=
  let page := parsed_or page_param 1 in
  let limit := parsed_or limit_param 20 in
  let skip := ((page - 1) * limit)%Z in
  let found := matching store templateKey in
  let total := Z.of_nat (List.length found) in
  match skip_limit skip limit (sort_created_desc found) with
  | None => ListError
  | Some window =>
      ListOk
        (mkListing
           (map listed window)
           (mkPagination page (ceil_div total limit) total limit
                         (Z.ltb (skip + limit) total) (Z.ltb 1 page))
           (distinct_templateKeys store))
  end.

(** What is assumed of the database: with a skip that is not negative and
    a positive limit it returns the window of the documents. *)
Definition windowing : Prop :=
  forall skip limit docs,
    (0 <= skip)%Z ->
    (0 < limit)%Z ->
    skip_limit skip limit docs
    = Some (firstn (Z.to_nat limit) (skipn (Z.to_nat skip) docs)).

End ListPages.

(** A chain of documents appended one after another, each under a slug
    the collection did not hold when it came. *)
Fixpoint appended_fresh (store : Store) (created : list Page) : Prop :=
  match created with
  | [] => True
  | page :: rest =>
      ~ In (slug page) (slugs store)
      /\ appended_fresh (store ++ [page])%list rest
  end.

(** What is known of a page a batch has made from [template]: its row is
    one of the batch, it passed validation, and its key, its sections, its
    pairs and its structured data come from the template. *)
Definition made_from (validate : Page -> bool) (template : Template)
    (rows : list Row) (page : Page) : Prop :=
  In (vars page) rows
  /\ validate page = true
  /\ templateKey page
     = JS.or_else (tpl_templateKey template) "default"
  /\ List.length (sections page)
     = List.length (match tpl_sections template with
                    | Some l => l
                    | None => []
                    end)
  /\ List.length (faq page)
     = List.length (match tpl_faq template with
                    | Some l => l
                    | None => []
                    end)
  /\ faqSchema page = Templating.buildFaqSchema (faq page).

End AdminPages.

(* ================================================================= *)
(** ** routes/admin.js: the deploy slug of [POST /deploy/:slug] *)

Module Deploy.

(** A document of the [DeployedPage] collection
    ([models/DeployedPage.js]), the creation time apart. *)
Record DeployedPage : Type := mkDeployedPage {
  pageSlug : string;
  deploySlug : string;
  d_title : option string;
  url : string;
  provider : string
}.

Definition Deployed : Type := list DeployedPage.

Definition has_deploySlug (s : string) (record : DeployedPage) : bool :=
  String.eqb (deploySlug record) s.

(** [DeployedPage.findOne({ deploySlug })]. *)
Definition findOne (deployed : Deployed) (s : string) : option DeployedPage :=
  find (has_deploySlug s) deployed.

(** The condition of the [while] loop: [findOne] resolved to a record. *)
Definition taken (deployed : Deployed) (s : string) : bool :=
  match findOne deployed s with
  | Some _ => true
  | None => false
  end.



Section Allocate.

(** [slugify(base, { lower: true, strict: true })]. *)
Variable slugify : string -> string.



End Allocate.

End Deploy.

(* ================================================================= *)
(** ** server.js: basic authentication *)

Module Server.

Inductive auth_result : Type :=
| Next                                  (* the request goes on *)
| Unauthorized (body : string)          (* 401, with [WWW-Authenticate] *)
| ServerError.                          (* a throw, left to the error handler *)

Section BasicAuth.

(** [Buffer.from(text, 'base64').toString()]. *)
Variable base64_decode : string -> string.

(** [ADMIN_USER] and [ADMIN_PASS] are the two environment variables and
    [authorization] the request header, [None] when absent. *)
Definition basicAuth (ADMIN_USER ADMIN_PASS authorization : option string)
  : auth_result :=
  if negb (Templating.truthy_field ADMIN_USER)
     || negb (Templating.truthy_field ADMIN_PASS)
  then Next
  else
    match authorization with
    | None => Unauthorized "Authentication required"
    | Some auth =>
        if negb (JS.truthy auth) || negb (JS.starts_with "Basic " auth)
        then Unauthorized "Authentication required"
        else
          match nth_error (JSText.split_char " " auth) 1 with
          | None => ServerError
          | Some encoded =>
              let credentials :=
                JSText.split_char ":" (base64_decode encoded) in
              let username := nth_error credentials 0 in
              let password := nth_error credentials 1 in
              if match username, ADMIN_USER with
                 | Some u, Some u' => String.eqb u u'
                 | _, _ => false
                 end
                 && match password, ADMIN_PASS with
                    | Some p, Some p' => String.eqb p p'
                    | _, _ => false
                    end
              then Next
              else Unauthorized "Invalid credentials"
          end
    end.

End BasicAuth.

End Server.

(* ================================================================= *)
(** ** More example data *)

Module MoreExamples.

Definition plumber_page : Page :=
  mkPage "plumber" "plumber in Reno" "Find a plumber in Reno" "plumber"
         [] [] (JObj []) Examples.plumber_row "minimal".

Definition roofer_page : Page :=
  mkPage "roofer" "roofer in Reno" "Find a roofer in Reno" "roofer"
         [] [] (JObj []) [("keyword", "roofer"); ("city", "Reno")] "faq-rich".

Definition two_pages : PageModel.Store := [plumber_page; roofer_page].

Definition roofing_pairs : list FaqItem :=
  [ mkFaqItem (Some "A?") (Some "B."); mkFaqItem (Some "") (Some "C.") ].

(** A page with one complete pair and one pair without a question. *)
Definition faq_page : Page :=
  mkPage "roofing-faq" "Roofing FAQ" "Answers about roofing" "Roofing"
         [] roofing_pairs (Templating.buildFaqSchema roofing_pairs)
         [("keyword", "roofing faq")] "faq-rich".

(** A decoder that knows one token. *)
(** The database's skip and limit: a negative skip is rejected, a negative
    limit counts as its absolute value. *)
Definition window (skip limit : Z) (docs : list Page) : option (list Page) :=
  if Z.ltb skip 0 then None
  else Some (firstn (Z.to_nat (Z.abs limit)) (skipn (Z.to_nat skip) docs)).

Definition decode_one (encoded : string) : string :=
  if String.eqb encoded "YWRtaW46czNjcmV0" then "admin:s3cret" else "".

End MoreExamples.

(* ================================================================= *)
(** * Properties *)

(** ** Strings and outcomes *)

Lemma append_empty_r (s : string) : s ++ "" = s.
Proof. induction s as [|c s IH]; simpl; [reflexivity | now rewrite IH]. Qed.

Lemma append_assoc (s t u : string) : (s ++ t) ++ u = s ++ (t ++ u).
Proof. induction s as [|c s IH]; simpl; [reflexivity | now rewrite IH]. Qed.

Lemma append_length (s t : string) :
  String.length (s ++ t) = String.length s + String.length t.
Proof. induction s as [|c s IH]; simpl; [reflexivity | now rewrite IH]. Qed.

Lemma append_cancel_l (s t u : string) : s ++ t = s ++ u -> t = u.
Proof.
  induction s as [|c s IH]; simpl; intros H; [exact H |].
  injection H as H. now apply IH.
Qed.

Lemma truthy_false_iff (s : string) : JS.truthy s = false <-> s = "".
Proof. destruct s; simpl; split; congruence. Qed.

Lemma truthy_true_iff (s : string) : JS.truthy s = true <-> s <> "".
Proof. destruct s; simpl; split; congruence. Qed.

Lemma number_to_string_inj (m n : nat) :
  JS.number_to_string m = JS.number_to_string n -> m = n.
Proof.
  unfold JS.number_to_string. intros H.
  apply (f_equal NilEmpty.uint_of_string) in H.
  rewrite !NilEmpty.usu in H.
  injection H as H.
  apply (f_equal Nat.of_uint) in H.
  now rewrite !DecimalNat.Unsigned.of_to in H.
Qed.

(* ================================================================= *)
(** ** The slug allocator *)

Module SlugFacts.
Import Templating.

Lemma candidate_succ (base : string) (k : nat) :
  candidate base (S k) = base ++ "-" ++ JS.number_to_string (S k).
Proof. reflexivity. Qed.

Lemma candidate_inj (base : string) (j k : nat) :
  candidate base j = candidate base k -> j = k.
Proof.
  destruct j as [|j], k as [|k]; simpl; intros H.
  - reflexivity.
  - apply (f_equal String.length) in H. rewrite append_length in H.
    simpl in H. lia.
  - apply (f_equal String.length) in H. rewrite append_length in H.
    simpl in H. lia.
  - apply append_cancel_l in H. injection H as H.
    now apply number_to_string_inj in H.
Qed.

Lemma candidate_nonempty (base : string) (k : nat) :
  base <> "" -> candidate base k <> "".
Proof.
  intros Hb. destruct k; simpl; [exact Hb |].
  destruct base; [congruence | discriminate].
Qed.

Lemma candidate_succ_nonempty (base : string) (k : nat) :
  candidate base (S k) <> "".
Proof.
  simpl. destruct base; simpl; discriminate.
Qed.

(** The loop, started on candidate [k], stops at the first candidate from
    [k] on that [check] reports unused, provided one lies within reach of
    the fuel. *)
Lemma loop_first_unused (check : string -> bool) (base : string) :
  forall fuel k probes,
    (exists j, j < fuel /\ check (candidate base (k + j)) = false) ->
    exists n,
      n < fuel
      /\ makeUniqueSlug_loop fuel check base (candidate base k) (S k) probes
         = Return (candidate base (k + n),
                   (probes ++ map (candidate base) (seq k (S n)))%list)
      /\ check (candidate base (k + n)) = false
      /\ forall j, j < n -> check (candidate base (k + j)) = true.
Proof.
  induction fuel as [|fuel IH]; intros k probes [j [Hj Hfree]]; [lia |].
  cbn [makeUniqueSlug_loop]. destruct (check (candidate base k)) eqn:Hk.
  - destruct j as [|j]; [rewrite Nat.add_0_r in Hfree; congruence |].
    destruct (IH (S k) (probes ++ [candidate base k])%list) as [n [Hn [Hrun [Hf Hlt]]]].
    { exists j. split; [lia |]. now replace (S k + j) with (k + S j) by lia. }
    exists (S n). repeat split.
    + lia.
    + rewrite <- candidate_succ, Hrun.
      replace (k + S n) with (S k + n) by lia.
      now rewrite <- app_assoc.
    + now replace (k + S n) with (S k + n) by lia.
    + intros [|i] Hi; [now rewrite Nat.add_0_r |].
      replace (k + S i) with (S k + i) by lia. apply Hlt. lia.
  - exists 0. rewrite Nat.add_0_r. repeat split; try assumption; lia.
Qed.

Lemma loop_never_throws (check : string -> bool) (base : string) :
  forall fuel final counter probes e,
    makeUniqueSlug_loop fuel check base final counter probes <> Throw e.
Proof.
  induction fuel as [|fuel IH]; intros final counter probes e; simpl.
  - discriminate.
  - destruct (check final); [apply IH | discriminate].
Qed.

(** Whatever the loop returns was reported unused, and is either the slug
    it started from or a suffixed candidate. *)
Lemma loop_result (check : string -> bool) (base : string) :
  forall fuel final counter probes r log,
    makeUniqueSlug_loop fuel check base final counter probes = Return (r, log) ->
    check r = false
    /\ (r = final \/ exists k, r = base ++ "-" ++ JS.number_to_string k).
Proof.
  induction fuel as [|fuel IH]; intros final counter probes r log;
    cbn [makeUniqueSlug_loop].
  - discriminate.
  - destruct (check final) eqn:Hc.
    + intros H. apply IH in H. destruct H as [Hr [-> | [k ->]]].
      * split; [exact Hr | right; now exists counter].
      * split; [exact Hr | right; now exists k].
    + intros H. injection H as <- _. split; [exact Hc | now left].
Qed.

End SlugFacts.

Module SlugClaims.
Import Templating SlugFacts.

(** C5 (amended).  For every non-empty seed and every existence predicate,
    allocation returns the first candidate of the sequence base, base-1,
    base-2, ... that the predicate reports unused, having checked the
    candidates before it one after another, in order; an empty seed yields
    the empty slug without any check.  In particular, when the seed [Foo]
    normalizes to [foo] and the predicate is true on [foo] and [foo-1] and
    false on [foo-2], the result is [foo-2]. *)
Theorem makeUniqueSlug_first_unused (slugify : string -> string) :
  (forall keyword check k fuel,
      keyword <> "" ->
      (forall j, j < k -> check (candidate (slugify keyword) j) = true) ->
      check (candidate (slugify keyword) k) = false ->
      k < fuel ->
      makeUniqueSlug slugify fuel keyword (Some check)
      = Return (candidate (slugify keyword) k,
                map (candidate (slugify keyword)) (seq 0 (S k))))
  /\ (forall check fuel,
        makeUniqueSlug slugify fuel "" check = Return ("", []))
  /\ (forall check fuel,
        slugify "Foo" = "foo" ->
        check "foo" = true -> check "foo-1" = true -> check "foo-2" = false ->
        2 < fuel ->
        makeUniqueSlug slugify fuel "Foo" (Some check)
        = Return ("foo-2", ["foo"; "foo-1"; "foo-2"])).
Proof.
  assert (General : forall keyword check k fuel,
      keyword <> "" ->
      (forall j, j < k -> check (candidate (slugify keyword) j) = true) ->
      check (candidate (slugify keyword) k) = false ->
      k < fuel ->
      makeUniqueSlug slugify fuel keyword (Some check)
      = Return (candidate (slugify keyword) k,
                map (candidate (slugify keyword)) (seq 0 (S k)))).
  { intros keyword check k fuel Hkw Hbefore Hfree Hfuel.
    unfold makeUniqueSlug.
    apply truthy_true_iff in Hkw. rewrite Hkw. cbn [negb].
    destruct (loop_first_unused check (slugify keyword) fuel 0 [])
      as [n [Hn [Hrun [Hnfree Hnbefore]]]].
    { exists k. now split. }
    cbn [Nat.add] in Hrun, Hnfree, Hnbefore.
    assert (n = k) as ->.
    { destruct (Nat.lt_trichotomy n k) as [Hlt | [Heq | Hgt]].
      - specialize (Hbefore n Hlt). congruence.
      - exact Heq.
      - specialize (Hnbefore k Hgt). congruence. }
    exact Hrun. }
  split; [exact General |]. split.
  - intros check fuel. reflexivity.
  - intros check fuel Hfoo H0 H1 H2 Hfuel.
    rewrite (General "Foo" check 2 fuel).
    + rewrite Hfoo. reflexivity.
    + discriminate.
    + rewrite Hfoo. intros [|[|j]] Hj; [exact H0 | exact H1 | lia].
    + rewrite Hfoo. exact H2.
    + exact Hfuel.
Qed.

Lemma makeUniqueSlug_first_unused_witness :
  makeUniqueSlug Reference.slugify 3 "Foo" (Some Examples.foo_taken)
  = Return ("foo-2", ["foo"; "foo-1"; "foo-2"]).
Proof.
  apply (proj2 (proj2 (makeUniqueSlug_first_unused Reference.slugify))).
  - reflexivity.
  - reflexivity.
  - reflexivity.
  - reflexivity.
  - apply Nat.lt_succ_diag_r.
Defined.

(** C5, as stated, fails on the empty seed: with a predicate that reports
    the empty slug taken, allocation still returns the empty slug, which
    is the base candidate and is taken, while the first unused candidate
    of the sequence is [-1]. *)
Lemma makeUniqueSlug_empty_seed_unchecked :
  makeUniqueSlug Reference.slugify 5 "" (Some Examples.empty_taken)
  = Return ("", [])
  /\ candidate (Reference.slugify "") 0 = ""
  /\ Examples.empty_taken (candidate (Reference.slugify "") 0) = true
  /\ candidate (Reference.slugify "") 1 = "-1"
  /\ Examples.empty_taken (candidate (Reference.slugify "") 1) = false.
Proof. repeat split. Qed.

(** C6 (amended).  A seed whose normalization is non-empty never yields
    the empty slug.  A seed whose normalization is empty yields the empty
    slug when the seed itself is empty, when no existence check is
    supplied, or when the check reports the empty slug unused.  When the
    seed is not empty, its normalization is empty and the check reports
    the empty slug taken, allocation goes on to the suffixed candidates
    and what it returns is not empty. *)
Theorem makeUniqueSlug_empty_slug_cases (slugify : string -> string) :
  slugify "" = "" ->
  (forall fuel keyword check r log,
      slugify keyword <> "" ->
      makeUniqueSlug slugify fuel keyword check = Return (r, log) ->
      r <> "")
  /\ (forall fuel keyword check,
        slugify keyword = "" ->
        keyword = "" \/ check = None
        \/ (exists f, check = Some f /\ f "" = false /\ 0 < fuel) ->
        exists log, makeUniqueSlug slugify fuel keyword check = Return ("", log))
  /\ (forall fuel keyword f r log,
        keyword <> "" ->
        slugify keyword = "" ->
        f "" = true ->
        makeUniqueSlug slugify fuel keyword (Some f) = Return (r, log) ->
        r <> "").
Proof.
  intros Hempty. repeat split.
  - intros fuel keyword check r log Hbase.
    unfold makeUniqueSlug.
    destruct (JS.truthy keyword) eqn:Hkw; cbn [negb].
    + destruct check as [f|].
      * intros H. apply loop_result in H.
        destruct H as [_ [-> | [k ->]]]; [exact Hbase |].
        destruct (slugify keyword); [congruence | discriminate].
      * intros H. injection H as <- _. exact Hbase.
    + apply truthy_false_iff in Hkw. subst keyword. congruence.
  - intros fuel keyword check Hbase Hcases.
    unfold makeUniqueSlug.
    destruct (JS.truthy keyword) eqn:Hkw; cbn [negb]; [| now exists []].
    rewrite Hbase.
    destruct Hcases as [-> | [-> | [f [-> [Hf Hfuel]]]]].
    + discriminate.
    + now exists [].
    + destruct fuel as [|fuel]; [lia |].
      cbn [makeUniqueSlug_loop]. rewrite Hf. now exists [""].
  - intros fuel keyword f r log Hkw Hbase Hf.
    unfold makeUniqueSlug.
    apply truthy_true_iff in Hkw. rewrite Hkw. cbn [negb].
    rewrite Hbase. intros H. apply loop_result in H.
    destruct H as [Hr [-> | [k ->]]]; [congruence | discriminate].
Qed.

Lemma makeUniqueSlug_empty_slug_cases_witness :
  (exists log,
      makeUniqueSlug Reference.slugify 1 "!" (Some Examples.foo_taken)
      = Return ("", log))
  /\ (forall r log,
        makeUniqueSlug Reference.slugify 4 "Foo" (Some Examples.foo_taken)
        = Return (r, log) ->
        r <> "").
Proof.
  destruct (makeUniqueSlug_empty_slug_cases Reference.slugify eq_refl)
    as [Hnonempty [Hempty _]].
  split.
  - apply Hempty; [reflexivity |].
    right. right. exists Examples.foo_taken.
    repeat split. apply Nat.lt_0_succ.
  - intros r log. apply Hnonempty. discriminate.
Defined.

(** C6, as stated, fails on a seed of punctuation only: its normalization
    is empty, yet with a predicate that reports the empty slug taken the
    allocation returns [-1]. *)
Lemma makeUniqueSlug_punctuation_seed :
  Reference.slugify "!" = ""
  /\ makeUniqueSlug Reference.slugify 5 "!" (Some Examples.empty_taken)
     = Return ("-1", [""; "-1"]).
Proof. split; reflexivity. Qed.

(** C10.  With an existence-check argument that is not a function,
    allocation returns the normalized base slug and checks nothing; the
    slug returned may therefore be one that is taken, whereas a slug
    returned under a predicate is one the predicate reports unused. *)
Theorem makeUniqueSlug_without_check (slugify : string -> string) :
  slugify "" = "" ->
  (forall fuel keyword,
      makeUniqueSlug slugify fuel keyword None = Return (slugify keyword, []))
  /\ (forall fuel keyword (taken : string -> bool),
        taken (slugify keyword) = true ->
        exists r,
          makeUniqueSlug slugify fuel keyword None = Return (r, [])
          /\ taken r = true)
  /\ (forall fuel keyword (taken : string -> bool) r log,
        keyword <> "" ->
        makeUniqueSlug slugify fuel keyword (Some taken) = Return (r, log) ->
        taken r = false).
Proof.
  intros Hempty.
  assert (Base : forall fuel keyword,
      makeUniqueSlug slugify fuel keyword None = Return (slugify keyword, [])).
  { intros fuel keyword. unfold makeUniqueSlug.
    destruct (JS.truthy keyword) eqn:Hkw; cbn [negb]; [reflexivity |].
    apply truthy_false_iff in Hkw. subst keyword. now rewrite Hempty. }
  repeat split.
  - exact Base.
  - intros fuel keyword taken Htaken.
    exists (slugify keyword). now rewrite Base.
  - intros fuel keyword taken r log Hkw.
    unfold makeUniqueSlug.
    apply truthy_true_iff in Hkw. rewrite Hkw. cbn [negb].
    intros H. now apply loop_result in H.
Qed.

Lemma makeUniqueSlug_without_check_witness :
  makeUniqueSlug Reference.slugify 0 "Foo" None = Return ("foo", [])
  /\ Examples.foo_taken "foo" = true.
Proof.
  split.
  - apply (proj1 (makeUniqueSlug_without_check Reference.slugify eq_refl)).
  - reflexivity.
Defined.

End SlugClaims.

(* ================================================================= *)
(** ** Outcomes: returning, throwing, running out of fuel *)

Lemma bind_return_inv {A B} (m : outcome A) (f : A -> outcome B) (y : B) :
  bind m f = Return y -> exists x, m = Return x /\ f x = Return y.
Proof. destruct m; simpl; intros H; try discriminate. now exists x. Qed.

Lemma bind_settles {A B} (m : outcome A) (f : A -> outcome B) :
  m <> OutOfFuel -> (forall x, f x <> OutOfFuel) -> bind m f <> OutOfFuel.
Proof. destruct m; simpl; intros Hm Hf; [apply Hf | discriminate | congruence]. Qed.

Lemma rethrow_return_inv {A} (h : error -> error) (m : outcome A) (y : A) :
  rethrow h m = Return y -> m = Return y.
Proof. destruct m; simpl; congruence. Qed.

Lemma rethrow_throw_inv {A} (h : error -> error) (m : outcome A) (e : error) :
  rethrow h m = Throw e -> exists cause, e = h cause.
Proof. destruct m; simpl; intros H; try discriminate. injection H as <-. eauto. Qed.

Lemma rethrow_settles {A} (h : error -> error) (m : outcome A) :
  m <> OutOfFuel -> rethrow h m <> OutOfFuel.
Proof. destruct m; simpl; congruence. Qed.

Lemma map_outcome_settles {A B} (f : A -> outcome B) (l : list A) :
  (forall x, f x <> OutOfFuel) -> map_outcome f l <> OutOfFuel.
Proof.
  intros Hf. induction l as [|x l IH]; simpl; [discriminate |].
  apply bind_settles; [apply Hf |]. intros y.
  apply bind_settles; [exact IH | discriminate].
Qed.

Lemma settled_cases {A} (m : outcome A) :
  m <> OutOfFuel -> (exists x, m = Return x) \/ (exists e, m = Throw e).
Proof. destruct m; intros H; [left | right | congruence]; eauto. Qed.

(* ================================================================= *)
(** ** The generation batch *)

Module GenerateFacts.
Import Templating PageModel Admin SlugFacts.

Lemma checkSlugExists_In (store : Store) (s : string) :
  checkSlugExists store s = true <-> In s (slugs store).
Proof.
  unfold checkSlugExists, findOne, slugs.
  induction store as [|p store IH]; simpl.
  - split; [discriminate | tauto].
  - unfold has_slug at 1. destruct (String.eqb_spec (slug p) s) as [-> | Hne].
    + split; auto.
    + rewrite IH. split; [auto | intros [H | H]; [congruence | exact H]].
Qed.

Lemma existsb_has_slug (store : Store) (s : string) :
  existsb (has_slug s) store = checkSlugExists store s.
Proof.
  unfold checkSlugExists, findOne.
  induction store as [|p store IH]; simpl; [reflexivity |].
  destruct (has_slug s p); [reflexivity | exact IH].
Qed.

(** A predicate on an initial segment of the naturals holds throughout or
    fails at some index. *)
Lemma bounded_search (P : nat -> bool) (n : nat) :
  (forall j, j < n -> P j = true) \/ (exists j, j < n /\ P j = false).
Proof.
  induction n as [|n [IH | [j [Hj Hf]]]].
  - left. intros j Hj. lia.
  - destruct (P n) eqn:Hn.
    + left. intros j Hj. destruct (Nat.eq_dec j n) as [-> | Hne];
        [exact Hn | apply IH; lia].
    + right. exists n. split; [lia | exact Hn].
  - right. exists j. split; [lia | exact Hf].
Qed.

(** More candidates than documents: one of them is unused. *)
Lemma unused_candidate_within (store : Store) (base : string) (fuel : nat) :
  List.length store < fuel ->
  exists j, j < fuel /\ checkSlugExists store (candidate base j) = false.
Proof.
  intros Hfuel.
  destruct (bounded_search (fun j => checkSlugExists store (candidate base j)) fuel)
    as [Hall | Hex]; [exfalso | exact Hex].
  assert (Hincl : incl (map (candidate base) (seq 0 fuel)) (slugs store)).
  { intros s Hs. apply in_map_iff in Hs. destruct Hs as [j [<- Hj]].
    apply in_seq in Hj. apply checkSlugExists_In, Hall. lia. }
  assert (Hnodup : NoDup (map (candidate base) (seq 0 fuel))).
  { apply Finite.Injective_map_NoDup; [| apply seq_NoDup].
    intros j k. apply candidate_inj. }
  pose proof (NoDup_incl_length Hnodup Hincl) as Hlen.
  unfold slugs in Hlen. rewrite !length_map, length_seq in Hlen. lia.
Qed.

Section Batch.

Variable regex_replace : string -> string -> string -> option string.
Variable slugify : string -> string.
Variable validate : Page -> bool.

Lemma fill_keys_settles (entries : Row) :
  forall result, fill_keys regex_replace entries result <> OutOfFuel.
Proof.
  induction entries as [|[key value] entries IH]; intros result; simpl.
  - discriminate.
  - destruct (regex_replace _ _ _); [apply IH | discriminate].
Qed.

Lemma fill_settles (str : string) (vars : Row) :
  fill regex_replace str vars <> OutOfFuel.
Proof.
  unfold fill. destruct (negb (JS.truthy str));
    [discriminate | apply fill_keys_settles].
Qed.

(** Against a collection, allocation returns within [length store + 1]
    iterations, and what it returns is the empty slug or a slug absent
    from the collection. *)
Lemma makeUniqueSlug_on_store (store : Store) (fuel : nat) (keyword : string) :
  List.length store < fuel ->
  exists r log,
    makeUniqueSlug slugify fuel keyword (Some (checkSlugExists store))
    = Return (r, log)
    /\ (r = "" \/ ~ In r (slugs store)).
Proof.
  intros Hfuel. unfold makeUniqueSlug.
  destruct (JS.truthy keyword); cbn [negb].
  - destruct (loop_first_unused (checkSlugExists store) (slugify keyword)
                fuel 0 [] (unused_candidate_within store _ fuel Hfuel))
      as [n [_ [Hrun [Hfree _]]]].
    change (candidate (slugify keyword) 0) with (slugify keyword) in Hrun.
    rewrite Hrun. eexists _, _. split; [reflexivity |].
    right. rewrite <- checkSlugExists_In. cbn [Nat.add] in *.
    intros Htaken. congruence.
  - exists "", []. split; [reflexivity | now left].
Qed.

Lemma processTemplate_settles (store : Store) (fuel : nat)
    (template : Template) (vars : Row) :
  List.length store < fuel ->
  processTemplate regex_replace slugify fuel template vars
    (Some (checkSlugExists store)) <> OutOfFuel.
Proof.
  intros Hfuel. unfold processTemplate.
  apply rethrow_settles.
  repeat (apply bind_settles; [try apply fill_settles | intros ?]).
  - destruct (tpl_sections template);
      [apply map_outcome_settles; intros; apply fill_settles | discriminate].
  - destruct (tpl_faq template); [| discriminate].
    apply map_outcome_settles. intros item.
    repeat (apply bind_settles; [apply fill_settles | intros ?]).
    discriminate.
  - destruct (makeUniqueSlug_on_store store fuel
                (JS.or_else (JS.or_opt (JS.prop "keyword" vars)
                                       (first_value vars)) "") Hfuel)
      as [r [log [Hrun _]]].
    rewrite Hrun. discriminate.
  - discriminate.
Qed.

Lemma processTemplate_slug (store : Store) (fuel : nat)
    (template : Template) (vars : Row) (processed : Processed) :
  List.length store < fuel ->
  processTemplate regex_replace slugify fuel template vars
    (Some (checkSlugExists store)) = Return processed ->
  pr_slug processed = "" \/ ~ In (pr_slug processed) (slugs store).
Proof.
  intros Hfuel H. unfold processTemplate in H.
  apply rethrow_return_inv in H.
  do 5 (apply bind_return_inv in H; destruct H as [? [_ H]]).
  apply bind_return_inv in H. destruct H as [[r log] [Hrun H]].
  injection H as <-. cbn [pr_slug fst].
  destruct (makeUniqueSlug_on_store store fuel
              (JS.or_else (JS.or_opt (JS.prop "keyword" vars)
                                     (first_value vars)) "") Hfuel)
    as [r' [log' [Hrun' Hr']]].
  rewrite Hrun in Hrun'. injection Hrun' as -> _. exact Hr'.
Qed.

(** One row: either a page is appended, under a slug the collection did
    not hold, or the row throws and the collection is as it was.  When
    validation rejects the empty slug, the throw is never the unique
    index's. *)
Lemma process_row_cases (store : Store) (fuel : nat) (template : Template)
    (rowData : Row) :
  List.length store < fuel ->
  (exists processed page,
      process_row regex_replace slugify validate fuel template store rowData
      = Return ((store ++ [page])%list, processed)
      /\ summary_entry page = (pr_slug processed, pr_title processed)
      /\ vars page = rowData
      /\ ~ In (slug page) (slugs store))
  \/ (exists e,
        process_row regex_replace slugify validate fuel template store rowData
        = Throw e
        /\ ((forall page, validate page = true -> slug page <> "") ->
            forall s, e <> DuplicateKeyError s)).
Proof.
  intros Hfuel. unfold process_row.
  destruct (processTemplate regex_replace slugify fuel template rowData
              (Some (checkSlugExists store))) as [processed | e |] eqn:Hp.
  - cbn [bind]. unfold save.
    set (page := mkPage _ _ _ _ _ _ _ _ _).
    destruct (validate page) eqn:Hv; cbn [negb].
    + rewrite existsb_has_slug.
      destruct (checkSlugExists store (slug page)) eqn:Hex.
      * right. eexists. split; [reflexivity |].
        intros Hreq s _. apply checkSlugExists_In in Hex.
        destruct (processTemplate_slug store fuel template rowData processed
                    Hfuel Hp) as [Hempty | Hfresh].
        -- now apply (Hreq page Hv).
        -- now apply Hfresh.
      * left. exists processed, page. cbn [bind]. repeat split.
        rewrite <- checkSlugExists_In. congruence.
    + right. eexists. split; [reflexivity |]. intros _ s. discriminate.
  - right. exists e. split; [reflexivity |]. intros _ s.
    apply rethrow_throw_inv in Hp. destruct Hp as [cause ->]. discriminate.
  - exfalso. now apply (processTemplate_settles store fuel template rowData).
Qed.

(** The loop over the rows: it returns, every row either adds one page or
    one logged failure, and the summary counts and lists exactly the pages
    added. *)
Lemma generate_rows_run (fuel : nat) (template : Template) :
  forall rows i st,
    List.length (st_store st) + List.length rows < fuel ->
    exists st' created failures,
      generate_rows regex_replace slugify validate fuel template rows i st
      = Return st'
      /\ st_store st' = (st_store st ++ created)%list
      /\ st_log st' = (st_log st ++ failures)%list
      /\ List.length created + List.length failures = List.length rows
      /\ st_results st'
         = mkResults (success (st_results st) + List.length created)
                     (skipped (st_results st))
                     (errors (st_results st) + List.length failures)
                     (pages (st_results st) ++ map summary_entry created)%list
      /\ (NoDup (slugs (st_store st)) -> NoDup (slugs (st_store st')))
      /\ ((forall page, validate page = true -> slug page <> "") ->
          Forall (fun failure => forall s, snd failure <> DuplicateKeyError s)
                 failures).
Proof.
  induction rows as [|rowData rows IH]; intros i st Hfuel.
  - exists st, [], []. cbn [generate_rows]. rewrite !app_nil_r.
    repeat split; auto.
    destruct (st_results st); cbn. f_equal; lia.
  - cbn [generate_rows]. cbn [List.length] in Hfuel.
    destruct (process_row_cases (st_store st) fuel template rowData)
      as [[processed [page [Hrow [Hsum [_ Hfresh]]]]] | [e [Hrow Hdup]]];
      [lia | |]; rewrite Hrow.
    + match goal with |- context [generate_rows _ _ _ _ _ _ _ ?st1] =>
        destruct (IH (S i) st1) as [st' [created [failures H]]] end.
      { cbn [st_store]. rewrite length_app. cbn [List.length]. lia. }
      destruct H as [Hrun [Hstore [Hlog [Hlen [Hres [Hnd Hfail]]]]]].
      cbn [st_store st_log st_results success skipped errors pages]
        in Hstore, Hlog, Hres, Hnd.
      exists st', (page :: created), failures. repeat split.
      * exact Hrun.
      * now rewrite Hstore, <- app_assoc.
      * exact Hlog.
      * cbn [List.length]. lia.
      * rewrite Hres. cbn [List.length map]. rewrite <- Hsum, <- app_assoc.
        f_equal. lia.
      * intros Hno. apply Hnd. unfold slugs. rewrite map_app.
        apply NoDup_app; [exact Hno | repeat constructor; cbn; tauto |].
        intros s Hin [<- | []]. now apply Hfresh.
      * exact Hfail.
    + match goal with |- context [generate_rows _ _ _ _ _ _ _ ?st1] =>
        destruct (IH (S i) st1) as [st' [created [failures H]]] end.
      { cbn [st_store]. lia. }
      destruct H as [Hrun [Hstore [Hlog [Hlen [Hres [Hnd Hfail]]]]]].
      cbn [st_store st_log st_results success skipped errors pages]
        in Hstore, Hlog, Hres, Hnd.
      exists st', created, ((i + 1, e) :: failures). repeat split.
      * exact Hrun.
      * exact Hstore.
      * now rewrite Hlog, <- app_assoc.
      * cbn [List.length]. lia.
      * rewrite Hres. cbn [List.length]. f_equal. lia.
      * exact Hnd.
      * intros Hreq. constructor; [apply Hdup, Hreq | apply Hfail, Hreq].
Qed.

(** The rows after a prefix are processed from the state the prefix
    leaves, whatever happened to the rows of the prefix. *)
Lemma generate_rows_app (fuel : nat) (template : Template) :
  forall before after i st,
    generate_rows regex_replace slugify validate fuel template
      (before ++ after) i st
    = (st1 <- generate_rows regex_replace slugify validate fuel template
                before i st ;;
       generate_rows regex_replace slugify validate fuel template
         after (i + List.length before) st1).
Proof.
  induction before as [|rowData before IH]; intros after i st.
  - cbn. now rewrite Nat.add_0_r.
  - rewrite <- app_comm_cons. cbn [generate_rows List.length].
    destruct (process_row _ _ _ _ _ _ _) as [[store' processed] | e |];
      cbn beta iota; try reflexivity;
      rewrite IH; now replace (S i + List.length before)
                        with (i + S (List.length before)) by lia.
Qed.


End Batch.

End GenerateFacts.

Lemma NoDup_app_disjoint {A} (l l' : list A) :
  NoDup (l ++ l') -> forall x, In x l' -> ~ In x l.
Proof.
  induction l as [|y l IH]; simpl; intros H x Hx'; [tauto |].
  inversion H as [|? ? Hy Hrest]; subst.
  intros [-> | Hx].
  - apply Hy, in_or_app. now right.
  - now apply (IH Hrest x).
Qed.

Module GenerateClaims.
Import Templating PageModel Admin GenerateFacts.

(** C1.  A batch processed row after row, each row's existence check
    looking at the collection as the rows before it left it, returns; the
    pages it persists carry slugs that are pairwise distinct and absent
    from the collection as it was before the batch, so that slugs are
    unique in the collection after the batch as they were before it.  The
    allocator achieves this by itself: when validation rejects the empty
    slug, as the schema requires, no insert of the batch is rejected by the
    unique index. *)
Theorem generate_slugs_unique
    (regex_replace : string -> string -> string -> option string)
    (slugify : string -> string) (validate : Page -> bool)
    (fuel : nat) (store : Store) (rows : list Row)
    (template : option Template) :
  NoDup (slugs store) ->
  List.length store + List.length rows < fuel ->
  exists st resp created,
    generate regex_replace slugify validate fuel store rows template
    = Return (st, resp)
    /\ st_store st = (store ++ created)%list
    /\ NoDup (slugs created)
    /\ (forall s, In s (slugs created) -> ~ In s (slugs store))
    /\ NoDup (slugs (st_store st))
    /\ ((forall page, validate page = true -> slug page <> "") ->
        Forall (fun failure => forall s, snd failure <> DuplicateKeyError s)
               (st_log st)).
Proof.
  intros Hnodup Hfuel.
  assert (Rejected : forall resp : response,
    exists st resp' created,
      Return (mkState store (mkResults 0 0 0 []) [], resp)
      = Return (st, resp')
      /\ st_store st = (store ++ created)%list
      /\ NoDup (slugs created)
      /\ (forall s, In s (slugs created) -> ~ In s (slugs store))
      /\ NoDup (slugs (st_store st))
      /\ ((forall page, validate page = true -> slug page <> "") ->
          Forall (fun failure => forall s, snd failure <> DuplicateKeyError s)
                 (st_log st))).
  { intros resp. eexists _, _, []. cbn [st_store st_log].
    rewrite app_nil_r. repeat split; auto; constructor. }
  unfold generate.
  destruct rows as [|first_row rest]; [apply Rejected |].
  destruct template as [template|]; [| apply Rejected].
  destruct (negb (isValid _)); [apply Rejected |].
  destruct (generate_rows_run regex_replace slugify validate fuel template
              (first_row :: rest) 0 (mkState store (mkResults 0 0 0 []) []))
    as [st [created [failures H]]]; [exact Hfuel |].
  destruct H as [Hrun [Hstore [Hlog [_ [_ [Hnd Hfail]]]]]].
  cbn [st_store st_log] in Hstore, Hlog, Hnd.
  rewrite Hrun. cbn [bind]. eexists st, _, created.
  split; [reflexivity |].
  specialize (Hnd Hnodup).
  assert (Hall : NoDup (slugs store ++ slugs created)).
  { unfold slugs. rewrite <- map_app, <- Hstore. exact Hnd. }
  repeat split.
  - exact Hstore.
  - exact (NoDup_app_remove_l _ _ Hall).
  - intros s Hs. now apply (NoDup_app_disjoint _ _ Hall).
  - exact Hnd.
  - intros Hreq. rewrite Hlog. now apply Hfail.
Qed.

Lemma generate_slugs_unique_witness :
  exists st resp created,
    generate Reference.regex_replace Reference.slugify Reference.validate
      5 (Examples.generated_store Examples.city_template)
      Examples.plumber_batch (Some Examples.city_template)
    = Return (st, resp)
    /\ st_store st
       = (Examples.generated_store Examples.city_template ++ created)%list
    /\ NoDup (slugs created)
    /\ (forall s,
          In s (slugs created) ->
          ~ In s (slugs (Examples.generated_store Examples.city_template)))
    /\ NoDup (slugs (st_store st))
    /\ ((forall page, Reference.validate page = true -> slug page <> "") ->
        Forall (fun failure => forall s, snd failure <> DuplicateKeyError s)
               (st_log st)).
Proof.
  apply generate_slugs_unique.
  - cbv. constructor; [intros [] | constructor].
  - cbv. repeat constructor.
Defined.

(** The reference validator rejects the empty slug, as the [required]
    validator of the schema does. *)
Lemma reference_validate_slug (page : Page) :
  Reference.validate page = true -> slug page <> "".
Proof.
  unfold Reference.validate. intros Hv.
  destruct (slug page); [discriminate Hv | discriminate].
Qed.

(** C3.  With a valid template the batch returns a summary; every row
    either persists one page or is recorded as one failure, so the pages
    persisted number the rows less the failures, and the summary lists the
    slug and title of each page persisted, in order.  A row that throws
    leaves the collection as it was and the rows after it are processed
    from there. *)
Theorem generate_rows_never_abort
    (regex_replace : string -> string -> string -> option string)
    (slugify : string -> string) (validate : Page -> bool)
    (fuel : nat) (store : Store) (first_row : Row) (rest : list Row)
    (template : Template) :
  isValid (validateTemplate template (JS.keys first_row)) = true ->
  List.length store + List.length (first_row :: rest) < fuel ->
  exists st created,
    generate regex_replace slugify validate fuel store (first_row :: rest)
      (Some template)
    = Return (st,
              Status200 ("Generated "
                           ++ JS.number_to_string (List.length created)
                           ++ " pages successfully")
                        (st_results st))
    /\ st_store st = (store ++ created)%list
    /\ List.length created
       = List.length (first_row :: rest) - errors (st_results st)
    /\ errors (st_results st) <= List.length (first_row :: rest)
    /\ List.length (st_log st) = errors (st_results st)
    /\ success (st_results st) = List.length created
    /\ pages (st_results st) = map summary_entry created
    /\ (forall before bad after st1 e,
          first_row :: rest = (before ++ bad :: after)%list ->
          generate_rows regex_replace slugify validate fuel template before 0
            (mkState store (mkResults 0 0 0 []) []) = Return st1 ->
          process_row regex_replace slugify validate fuel template
            (st_store st1) bad = Throw e ->
          generate_rows regex_replace slugify validate fuel template after
            (S (List.length before))
            (mkState (st_store st1)
               (mkResults (success (st_results st1)) (skipped (st_results st1))
                          (S (errors (st_results st1))) (pages (st_results st1)))
               (st_log st1 ++ [(List.length before + 1, e)])%list)
          = Return st).
Proof.
  intros Hvalid Hfuel. unfold generate. rewrite Hvalid. cbn [negb].
  destruct (generate_rows_run regex_replace slugify validate fuel template
              (first_row :: rest) 0 (mkState store (mkResults 0 0 0 []) []))
    as [st [created [failures H]]]; [exact Hfuel |].
  destruct H as [Hrun [Hstore [Hlog [Hlen [Hres _]]]]].
  cbn [st_store st_log st_results success skipped errors pages Nat.add app]
    in Hstore, Hlog, Hres.
  rewrite Hrun. cbn [bind]. exists st, created.
  rewrite Hres. cbn [success errors pages]. rewrite Hlog.
  repeat split; try lia; try reflexivity; try assumption.
  intros before bad after st1 e Hsplit Hbefore Hbad.
  rewrite Hsplit, generate_rows_app, Hbefore in Hrun.
  cbn [bind generate_rows Nat.add] in Hrun. rewrite Hbad in Hrun.
  exact Hrun.
Qed.

Lemma generate_rows_never_abort_witness :
  exists st created,
    generate Reference.regex_replace Reference.slugify Reference.validate
      4 [] Examples.plumber_batch (Some Examples.city_template)
    = Return (st,
              Status200 ("Generated "
                           ++ JS.number_to_string (List.length created)
                           ++ " pages successfully")
                        (st_results st))
    /\ List.length created = 3 - errors (st_results st)
    /\ pages (st_results st) = map summary_entry created.
Proof.
  destruct (generate_rows_never_abort
              Reference.regex_replace Reference.slugify Reference.validate
              4 [] Examples.plumber_row
              [Examples.blank_row; Examples.plumber_row]
              Examples.city_template eq_refl)
    as [st [created [Hrun [_ [Hlen [_ [_ [_ [Hpages _]]]]]]]]].
  - repeat constructor.
  - exists st, created. repeat split; assumption.
Defined.

(** C4.  When the template fails validation against the keys of the first
    row, the batch answers at once with the validation error and the
    missing variables; no row is processed and the collection is as it
    was. *)
Theorem generate_invalid_template_fails_fast
    (regex_replace : string -> string -> string -> option string)
    (slugify : string -> string) (validate : Page -> bool)
    (fuel : nat) (store : Store) (first_row : Row) (rest : list Row)
    (template : Template) :
  isValid (validateTemplate template (JS.keys first_row)) = false ->
  generate regex_replace slugify validate fuel store (first_row :: rest)
    (Some template)
  = Return (mkState store (mkResults 0 0 0 []) [],
            Status400
              (error_message (validateTemplate template (JS.keys first_row)))
              (Some (missing (validateTemplate template (JS.keys first_row)))))
  /\ (forall variables,
        tpl_variables template = Some variables ->
        missing (validateTemplate template (JS.keys first_row))
        = filter (fun v => negb (JS.includes (JS.keys first_row) v)) variables).
Proof.
  intros Hinvalid. split.
  - unfold generate. now rewrite Hinvalid.
  - intros variables Hvars. unfold validateTemplate. now rewrite Hvars.
Qed.

Lemma generate_invalid_template_fails_fast_witness :
  generate Reference.regex_replace Reference.slugify Reference.validate
    0 [] [Examples.keyword_only_row; Examples.plumber_row]
    (Some Examples.city_template)
  = Return (mkState [] (mkResults 0 0 0 []) [],
            Status400 (Some "Missing CSV columns: city") (Some ["city"])).
Proof.
  apply (generate_invalid_template_fails_fast
           Reference.regex_replace Reference.slugify Reference.validate
           0 [] Examples.keyword_only_row [Examples.plumber_row]
           Examples.city_template eq_refl).
Defined.

End GenerateClaims.

(* ================================================================= *)
(** ** Substitution *)

Module FillFacts.
Import Templating.

Lemma contains_char_app (c : ascii) (s t : string) :
  JS.contains_char c (s ++ t) = JS.contains_char c s || JS.contains_char c t.
Proof.
  induction s as [|x s IH]; [reflexivity |].
  cbn [append JS.contains_char]. now rewrite IH, orb_assoc.
Qed.

Lemma all_chars_contains (f : ascii -> bool) (c : ascii) (s : string) :
  JS.all_chars f s = true -> JS.contains_char c s = true -> f c = true.
Proof.
  induction s as [|x s IH]; [discriminate |].
  cbn [JS.all_chars JS.contains_char].
  intros Hall Hin. apply andb_prop in Hall. destruct Hall as [Hx Hs].
  destruct (Ascii.eqb_spec x c) as [<- | _]; [exact Hx | now apply IH].
Qed.

(** A literal key holds no brace and no dollar sign. *)
Lemma literal_key_chars (key : string) :
  JS.literal_key key = true ->
  JS.contains_char "{" key = false
  /\ JS.contains_char "}" key = false
  /\ JS.contains_char "$" key = false.
Proof.
  unfold JS.literal_key. intros H.
  apply andb_prop in H. destruct H as [Hall _].
  repeat split;
    match goal with |- JS.contains_char ?c key = false =>
      destruct (JS.contains_char c key) eqn:Hc; [| reflexivity];
      now pose proof (all_chars_contains _ c key Hall Hc)
    end.
Qed.

Lemma starts_with_app (p s : string) : JS.starts_with p (p ++ s) = true.
Proof.
  induction p as [|c p IH]; [now destruct s |].
  cbn [append JS.starts_with]. now rewrite Ascii.eqb_refl.
Qed.

(** Between brace-free names, a token is a prefix only of a text that
    begins with the same token. *)
Lemma starts_with_other_token (k k' s : string) :
  JS.contains_char "}" k = false ->
  JS.contains_char "}" k' = false ->
  k <> k' ->
  JS.starts_with (k ++ "}") (k' ++ "}" ++ s) = false.
Proof.
  revert k'. induction k as [|c k IH]; intros k' Hk Hk' Hne.
  - destruct k' as [|c' k']; [congruence |].
    cbn [JS.contains_char] in Hk'. cbn [append JS.starts_with].
    apply orb_false_elim in Hk'. destruct Hk' as [Hc' _].
    rewrite Ascii.eqb_sym, Hc'. reflexivity.
  - cbn [JS.contains_char] in Hk.
    apply orb_false_elim in Hk. destruct Hk as [Hc Hk].
    destruct k' as [|c' k'].
    + cbn [append JS.starts_with]. now rewrite Hc.
    + cbn [JS.contains_char] in Hk'. cbn [append JS.starts_with].
      apply orb_false_elim in Hk'. destruct Hk' as [_ Hk'].
      destruct (Ascii.eqb_spec c c') as [<- | _]; [| reflexivity].
      cbn [andb]. apply IH; [assumption | assumption | congruence].
Qed.

Section Passes.

(** One pass: the pattern of a literal key [key], and a replacement text
    without [$]. *)
Variables key value : string.
Hypothesis key_literal : JS.literal_key key = true.
Hypothesis value_no_dollar : JS.contains_char "$" value = false.

Lemma get_substitution_plain (matched before after : string) :
  forall templ,
    JS.contains_char "$" templ = false ->
    JS.get_substitution matched before after templ = templ.
Proof.
  induction templ as [|c templ IH]; intros H; [reflexivity |].
  cbn [JS.contains_char] in H. cbn [JS.get_substitution].
  apply orb_false_elim in H. destruct H as [Hc Hrest].
  rewrite Hc. now rewrite IH.
Qed.

(** Without [$] in the replacement, the text already scanned plays no
    part. *)
Lemma replace_from_before (s : string) :
  forall before before' skip,
    JS.replace_from (token key) value before skip s
    = JS.replace_from (token key) value before' skip s.
Proof.
  induction s as [|c s IH]; intros before before' skip;
    cbn [JS.replace_from]; [reflexivity |].
  destruct skip as [|n]; [| apply IH].
  destruct (JS.starts_with (token key) (String c s)).
  - rewrite !get_substitution_plain by exact value_no_dollar.
    f_equal. apply IH.
  - f_equal. apply IH.
Qed.

Lemma replace_from_skip (t s : string) :
  forall before n,
    JS.replace_from (token key) value before (String.length t + n) (t ++ s)
    = JS.replace_from (token key) value before n s.
Proof.
  induction t as [|c t IH]; intros before n; [reflexivity |].
  cbn [String.length Nat.add append JS.replace_from].
  rewrite IH. apply replace_from_before.
Qed.

(** Text without an opening brace is copied. *)
Lemma replace_from_text (t s : string) :
  JS.contains_char "{" t = false ->
  forall before,
    JS.replace_from (token key) value before 0 (t ++ s)
    = t ++ JS.replace_from (token key) value before 0 s.
Proof.
  induction t as [|c t IH]; intros Ht before; [reflexivity |].
  cbn [JS.contains_char] in Ht. apply orb_false_elim in Ht. destruct Ht as [Hc Ht].
  cbn [append JS.replace_from].
  assert (Hno : JS.starts_with (token key) (String c (t ++ s)) = false).
  { unfold token. cbn [append JS.starts_with].
    rewrite Ascii.eqb_sym, Hc. reflexivity. }
  rewrite Hno, (IH Ht).
  now rewrite (replace_from_before s (before ++ String c "") before).
Qed.

(** The token of the key is replaced by the value, and the scan resumes
    after the token: the value is not scanned. *)
Lemma replace_from_token (s before : string) :
  JS.replace_from (token key) value before 0 (token key ++ s)
  = value ++ JS.replace_from (token key) value before 0 s.
Proof.
  assert (Hm : JS.starts_with (token key) (token key ++ s) = true)
    by apply starts_with_app.
  unfold token in *. cbn [append] in Hm |- *.
  cbn [JS.replace_from]. rewrite Hm.
  rewrite get_substitution_plain by exact value_no_dollar. f_equal.
  replace (String.length (String "{" (key ++ "}")) - 1)
    with (String.length (key ++ "}") + 0) by (cbn [String.length]; lia).
  rewrite replace_from_skip. apply replace_from_before.
Qed.

(** The token of another name is copied. *)
Lemma replace_from_other_token (name s before : string) :
  JS.contains_char "{" name = false ->
  JS.contains_char "}" name = false ->
  name <> key ->
  JS.replace_from (token key) value before 0 (token name ++ s)
  = token name ++ JS.replace_from (token key) value before 0 s.
Proof.
  intros Hopen Hclose Hne.
  destruct (literal_key_chars key key_literal) as [_ [Hkey _]].
  assert (Hno : JS.starts_with (token key) (token name ++ s) = false).
  { unfold token. cbn [append JS.starts_with]. rewrite Ascii.eqb_refl.
    cbn [andb]. rewrite append_assoc.
    apply starts_with_other_token; [assumption | assumption | congruence]. }
  unfold token in *. cbn [append] in Hno |- *.
  cbn [JS.replace_from]. rewrite Hno. f_equal.
  rewrite replace_from_text.
  - f_equal. apply replace_from_before.
  - rewrite contains_char_app, Hopen. reflexivity.
Qed.

Lemma replace_literal_render (segments : list segment) :
  flat segments = true ->
  JS.replace_literal (token key) value (render segments)
  = render (map (pass_segment key value) segments).
Proof.
  unfold JS.replace_literal.
  induction segments as [|[text | name] segments IH]; intros Hflat;
    [reflexivity | |];
    cbn [flat forallb flat_segment] in Hflat;
    apply andb_prop in Hflat; destruct Hflat as [Hseg Hflat];
    cbn [render map pass_segment].
  - apply negb_true_iff in Hseg.
    rewrite replace_from_text by exact Hseg. now rewrite IH.
  - apply andb_prop in Hseg. destruct Hseg as [Hopen Hclose].
    apply negb_true_iff in Hopen. apply negb_true_iff in Hclose.
    destruct (String.eqb_spec key name) as [<- | Hne].
    + rewrite replace_from_token. cbn [render]. now rewrite IH.
    + rewrite replace_from_other_token by (assumption || congruence).
      cbn [render]. now rewrite IH.
Qed.

End Passes.

End FillFacts.

Module FillRows.
Import Templating FillFacts.

Lemma or_else_value (value : string) : JS.or_else (Some value) "" = value.
Proof. now destruct value. Qed.

Lemma token_no_dollar (key : string) :
  JS.literal_key key = true -> JS.contains_char "$" (token key) = false.
Proof.
  intros H. destruct (literal_key_chars key H) as [_ [_ Hd]].
  unfold token. cbn [append JS.contains_char].
  now rewrite contains_char_app, Hd.
Qed.

Lemma render_token (name : string) : render [Tok name] = token name.
Proof. cbn [render]. apply append_empty_r. Qed.

Lemma flat_pass (key value : string) (segments : list segment) :
  JS.contains_char "{" value = false ->
  flat segments = true ->
  flat (map (pass_segment key value) segments) = true.
Proof.
  intros Hv. unfold flat.
  induction segments as [|[text | name] segments IH];
    cbn [map forallb pass_segment]; intros H; [reflexivity | |];
    apply andb_prop in H; destruct H as [Hseg Hrest];
    rewrite (IH Hrest), andb_true_r; [exact Hseg |].
  destruct (String.eqb key name); [| exact Hseg].
  cbn [flat_segment]. now rewrite Hv.
Qed.

Lemma resolve_nil (segments : list segment) :
  substitute_once [] segments = segments.
Proof.
  unfold substitute_once.
  induction segments as [|[text | name] segments IH]; cbn; congruence.
Qed.

Lemma resolve_cons (key value : string) (vars : Row)
    (segments : list segment) :
  substitute_once vars (map (pass_segment key value) segments)
  = substitute_once ((key, value) :: vars) segments.
Proof.
  unfold substitute_once. rewrite map_map. apply map_ext.
  intros [text | name]; cbn [pass_segment resolve_segment JS.prop];
    [reflexivity |].
  now destruct (String.eqb key name).
Qed.

Lemma resolve_twice (vars : Row) (segments : list segment) :
  substitute_once vars (substitute_once vars segments)
  = substitute_once vars segments.
Proof.
  unfold substitute_once. rewrite map_map. apply map_ext.
  intros [text | name]; cbn [resolve_segment]; [reflexivity |].
  destruct (JS.prop name vars) eqn:Hp; cbn [resolve_segment];
    [reflexivity | now rewrite Hp].
Qed.

Lemma resolve_absent (vars : Row) (segments : list segment) :
  (forall name, In (Tok name) segments -> JS.prop name vars = None) ->
  substitute_once vars segments = segments.
Proof.
  unfold substitute_once.
  induction segments as [|seg segments IH]; intros H; [reflexivity |].
  cbn [map]. rewrite IH by (intros name Hin; apply H; now right).
  destruct seg as [text | name]; cbn [resolve_segment]; [reflexivity |].
  now rewrite (H name (or_introl eq_refl)).
Qed.

Lemma flat_resolve (vars : Row) (segments : list segment) :
  plain_row vars = true ->
  flat segments = true ->
  flat (substitute_once vars segments) = true.
Proof.
  revert segments. induction vars as [|[key value] vars IH];
    intros segments Hrow Hflat.
  - now rewrite resolve_nil.
  - cbn [plain_row forallb fst snd] in Hrow.
    apply andb_prop in Hrow. destruct Hrow as [Hentry Hrow].
    apply andb_prop in Hentry. destruct Hentry as [_ Hvalue].
    unfold plain_value in Hvalue.
    apply andb_prop in Hvalue. destruct Hvalue as [Hopen _].
    apply negb_true_iff in Hopen.
    rewrite <- resolve_cons. apply IH; [exact Hrow |].
    now apply flat_pass.
Qed.

Lemma render_empty_resolve (vars : Row) (segments : list segment) :
  render segments = "" -> render (substitute_once vars segments) = "".
Proof.
  unfold substitute_once.
  induction segments as [|[text | name] segments IH];
    cbn [render map resolve_segment]; intros H; [reflexivity | |].
  - destruct text; [| discriminate]. cbn [append] in *. now apply IH.
  - discriminate.
Qed.

(** On a row, [vars[name]] finds the entry of [name]. *)
Lemma prop_In (vars : Row) (name value : string) :
  NoDup (JS.keys vars) ->
  JS.prop name vars = Some value <-> In (name, value) vars.
Proof.
  induction vars as [|[k v] vars IH]; cbn [JS.keys map fst JS.prop In];
    intros Hnd.
  - split; [discriminate | tauto].
  - inversion Hnd as [|? ? Hk Hrest]; subst.
    destruct (String.eqb_spec k name) as [-> | Hne].
    + split.
      * intros H. injection H as <-. now left.
      * intros [H | H]; [congruence |].
        exfalso. apply Hk. unfold JS.keys.
        change name with (fst (name, value)). now apply in_map.
    + rewrite (IH Hrest). split; [now right |].
      intros [H | H]; [congruence | exact H].
Qed.

(** The order of the entries does not matter to [vars[name]]. *)
Lemma prop_permutation (vars vars' : Row) (name : string) :
  NoDup (JS.keys vars) ->
  Permutation vars vars' ->
  JS.prop name vars = JS.prop name vars'.
Proof.
  intros Hnd Hperm.
  assert (Hnd' : NoDup (JS.keys vars')).
  { unfold JS.keys. eapply Permutation_NoDup; [| exact Hnd].
    now apply Permutation_map. }
  destruct (JS.prop name vars) as [v|] eqn:Hp.
  - symmetry. apply (prop_In vars' name v Hnd').
    eapply Permutation_in; [exact Hperm |]. now apply (prop_In vars name v Hnd).
  - destruct (JS.prop name vars') as [v'|] eqn:Hp'; [| reflexivity].
    apply (prop_In vars' name v' Hnd') in Hp'.
    apply (Permutation_in _ (Permutation_sym Hperm)) in Hp'.
    apply (prop_In vars name v' Hnd) in Hp'. congruence.
Qed.

Lemma plain_row_permutation (vars vars' : Row) :
  Permutation vars vars' -> plain_row vars = true -> plain_row vars' = true.
Proof.
  unfold plain_row. intros Hperm H.
  apply forallb_forall. intros entry Hin.
  apply (proj1 (forallb_forall _ _) H).
  eapply Permutation_in; [apply Permutation_sym, Hperm | exact Hin].
Qed.

Section Engine.

Variable regex_replace : string -> string -> string -> option string.
Hypothesis engine : literal_engine regex_replace.

(** The pass of one field over a flat text. *)
Lemma fill_keys_pass (key value : string) (rest : Row)
    (segments : list segment) :
  JS.literal_key key = true ->
  JS.contains_char "$" value = false ->
  flat segments = true ->
  fill_keys regex_replace ((key, value) :: rest) (render segments)
  = fill_keys regex_replace rest
      (render (map (pass_segment key value) segments)).
Proof.
  intros Hkey Hvalue Hflat. cbn [fill_keys].
  rewrite or_else_value, (engine key value _ Hkey).
  now rewrite replace_literal_render.
Qed.

(** On a flat text and a plain row, the passes amount to the one-pass
    substitution. *)
Lemma fill_keys_render (vars : Row) :
  forall segments,
    plain_row vars = true ->
    flat segments = true ->
    fill_keys regex_replace vars (render segments)
    = Return (render (substitute_once vars segments)).
Proof.
  induction vars as [|[key value] vars IH]; intros segments Hrow Hflat.
  - now rewrite resolve_nil.
  - cbn [plain_row forallb fst snd] in Hrow.
    apply andb_prop in Hrow. destruct Hrow as [Hentry Hrow].
    apply andb_prop in Hentry. destruct Hentry as [Hkey Hvalue].
    unfold plain_value in Hvalue.
    apply andb_prop in Hvalue. destruct Hvalue as [Hopen Hdollar].
    apply negb_true_iff in Hopen. apply negb_true_iff in Hdollar.
    rewrite fill_keys_pass by assumption.
    rewrite IH; [| exact Hrow | now apply flat_pass].
    now rewrite resolve_cons.
Qed.

Lemma fill_render (vars : Row) (segments : list segment) :
  plain_row vars = true ->
  flat segments = true ->
  fill regex_replace (render segments) vars
  = Return (render (substitute_once vars segments)).
Proof.
  intros Hrow Hflat. unfold fill.
  destruct (JS.truthy (render segments)) eqn:Ht; cbn [negb].
  - now apply fill_keys_render.
  - apply truthy_false_iff in Ht.
    now rewrite (render_empty_resolve vars segments Ht), Ht.
Qed.

End Engine.

(** The reference engine replaces the token of a literal key. *)
Lemma before_closing_brace_app (key : string) :
  Reference.before_closing_brace (key ++ "}") = Some key.
Proof.
  induction key as [|c key IH]; [reflexivity |].
  cbn [append Reference.before_closing_brace]. rewrite IH.
  now destruct key.
Qed.

Lemma reference_engine_literal : literal_engine Reference.regex_replace.
Proof.
  intros key replacement subject Hkey.
  unfold Reference.regex_replace, Reference.token_key, token.
  cbn [append]. rewrite Ascii.eqb_refl, before_closing_brace_app.
  now rewrite Hkey.
Qed.

End FillRows.

Module FillClaims.
Import Templating FillFacts FillRows.

(** C2 (amended).  Substitution applies the fields one after another, in
    the key order of the row, each by one left-to-right pass over the
    current text.  A pass does not scan the value it inserts; the passes
    of the fields that come later do: a token of a later field embedded in
    a value is substituted, a token of an earlier field stays, and the
    result depends on the order of the fields.  On a flat text (plain text
    and [{name}] tokens) and a row with literal, distinct keys whose values
    hold neither an opening brace nor a dollar sign, each token of a field
    is replaced by its value, every other token stays, and the result does
    not depend on the order of the fields. *)
Theorem fill_sequential_passes
    (regex_replace : string -> string -> string -> option string) :
  literal_engine regex_replace ->
  (forall key value rest,
      JS.literal_key key = true ->
      JS.contains_char "$" value = false ->
      fill regex_replace (token key ++ rest) [(key, value)]
      = Return (value ++ JS.replace_literal (token key) value rest))
  /\ (forall k1 k2 v2,
        JS.literal_key k1 = true ->
        JS.literal_key k2 = true ->
        k1 <> k2 ->
        JS.contains_char "$" v2 = false ->
        fill regex_replace (token k1) [(k1, token k2); (k2, v2)] = Return v2
        /\ fill regex_replace (token k1) [(k2, v2); (k1, token k2)]
           = Return (token k2))
  /\ (forall segments vars vars',
        flat segments = true ->
        plain_row vars = true ->
        NoDup (JS.keys vars) ->
        Permutation vars vars' ->
        fill regex_replace (render segments) vars
        = Return (render (substitute_once vars segments))
        /\ fill regex_replace (render segments) vars'
           = fill regex_replace (render segments) vars).
Proof.
  intros engine. split; [| split].
  - intros key value rest Hkey Hvalue.
    unfold fill, token at 1. cbn [append JS.truthy negb fill_keys].
    rewrite or_else_value, (engine key value _ Hkey).
    unfold JS.replace_literal.
    change (String "{" ((key ++ "}") ++ rest)) with (token key ++ rest).
    now rewrite replace_from_token.
  - intros k1 k2 v2 Hk1 Hk2 Hne Hv2.
    assert (Hflat1 : flat [Tok k1] = true).
    { cbn [flat forallb flat_segment].
      destruct (literal_key_chars k1 Hk1) as [-> [-> _]]. reflexivity. }
    assert (Hflat2 : flat [Tok k2] = true).
    { cbn [flat forallb flat_segment].
      destruct (literal_key_chars k2 Hk2) as [-> [-> _]]. reflexivity. }
    assert (Htruthy : JS.truthy (token k1) = true) by reflexivity.
    unfold fill. rewrite Htruthy. cbn [negb].
    rewrite <- (render_token k1). split.
    + rewrite fill_keys_pass
        by (assumption || now apply token_no_dollar).
      cbn [map pass_segment]. rewrite String.eqb_refl.
      change (render [Lit (token k2)]) with (render [Tok k2]).
      rewrite fill_keys_pass by assumption.
      cbn [map pass_segment fill_keys]. rewrite String.eqb_refl.
      cbn [render]. now rewrite append_empty_r.
    + rewrite fill_keys_pass by assumption.
      cbn [map pass_segment].
      destruct (String.eqb_spec k2 k1) as [Heq | _]; [congruence |].
      rewrite fill_keys_pass
        by (assumption || now apply token_no_dollar).
      cbn [map pass_segment fill_keys]. rewrite String.eqb_refl.
      cbn [render]. now rewrite append_empty_r.
  - intros segments row row' Hflat Hrow Hnd Hperm. split.
    + now apply fill_render.
    + rewrite !fill_render; try assumption;
        [| now apply (plain_row_permutation row row')].
      do 2 f_equal. unfold substitute_once. apply map_ext.
      intros [text | name]; cbn [resolve_segment]; [reflexivity |].
      now rewrite (prop_permutation row row' name).
Qed.

Lemma fill_sequential_passes_witness :
  fill Reference.regex_replace (token "a") [("a", token "b"); ("b", "X")]
  = Return "X"
  /\ fill Reference.regex_replace (render Examples.title_segments)
       Examples.plumber_row_swapped
     = fill Reference.regex_replace (render Examples.title_segments)
         Examples.plumber_row.
Proof.
  destruct (fill_sequential_passes Reference.regex_replace
              reference_engine_literal) as [_ [Hlater Hflat]].
  split.
  - apply (Hlater "a" "b" "X"); try reflexivity. discriminate.
  - apply (Hflat Examples.title_segments Examples.plumber_row
                 Examples.plumber_row_swapped); try reflexivity.
    + repeat constructor; cbn; intuition discriminate.
    + apply perm_swap.
Defined.

(** C2, as stated, fails: a value holding the token of a later field is
    scanned again and the token is substituted, and with the two fields in
    the other order the same text gives another result. *)
Lemma fill_rescans_values :
  fill Reference.regex_replace "{a}" Examples.nested_row = Return "X"
  /\ fill Reference.regex_replace "{a}" Examples.nested_row_swapped
     = Return "{b}"
  /\ Permutation Examples.nested_row Examples.nested_row_swapped.
Proof. repeat split. apply perm_swap. Qed.

(** C7 (amended).  Substitution is idempotent on a flat text (plain text
    and [{name}] tokens) under a row with literal keys whose values hold
    neither an opening brace nor a dollar sign: substituting again changes
    nothing.  In particular a text none of whose tokens names a field of
    the row is left as it is. *)
Theorem fill_idempotent_on_flat_text
    (regex_replace : string -> string -> string -> option string)
    (segments : list segment) (vars : Row) :
  literal_engine regex_replace ->
  flat segments = true ->
  plain_row vars = true ->
  exists once,
    fill regex_replace (render segments) vars = Return once
    /\ fill regex_replace once vars = Return once
    /\ ((forall name, In (Tok name) segments -> JS.prop name vars = None) ->
        once = render segments).
Proof.
  intros engine Hflat Hrow.
  exists (render (substitute_once vars segments)). repeat split.
  - now apply fill_render.
  - rewrite fill_render; [| assumption .. | now apply flat_resolve].
    now rewrite resolve_twice.
  - intros Habsent. now rewrite resolve_absent.
Qed.

Lemma fill_idempotent_on_flat_text_witness :
  exists once,
    fill Reference.regex_replace (render Examples.title_segments)
      Examples.plumber_row = Return once
    /\ fill Reference.regex_replace once Examples.plumber_row = Return once
    /\ ((forall name,
            In (Tok name) Examples.title_segments ->
            JS.prop name Examples.plumber_row = None) ->
        once = render Examples.title_segments).
Proof.
  apply (fill_idempotent_on_flat_text Reference.regex_replace
           Examples.title_segments Examples.plumber_row
           reference_engine_literal eq_refl eq_refl).
Defined.

(** C7, as stated, fails: a value holding the token of an earlier field is
    left by the first substitution and resolved by the second. *)
Lemma fill_twice_differs :
  fill Reference.regex_replace "{b}" Examples.backward_row = Return "{a}"
  /\ fill Reference.regex_replace "{a}" Examples.backward_row = Return "x"
  /\ "{a}" <> "x".
Proof. repeat split. discriminate. Qed.

End FillClaims.

(* ================================================================= *)
(** ** The structured-data builder *)

Module FaqClaims.
Import Templating.

Lemma filter_complete_pair (faqArray : list FaqItem) :
  filter (fun faq => truthy_field (q faq) && truthy_field (a faq)) faqArray
  = filter complete_pair faqArray.
Proof. reflexivity. Qed.

(** C8.  The builder keeps exactly the pairs that have both a question and
    an answer, in order, one entry for each; when none remains the result
    is the empty object, and otherwise it is an object too (never null,
    never an array).  The empty list and the list of one pair with empty
    question and answer give the empty object; the list of the one pair
    [A?]/[B.] gives an object with exactly one question/answer entry. *)
Theorem buildFaqSchema_entries :
  (forall faqArray,
      buildFaqSchema faqArray
      = match filter complete_pair faqArray with
        | [] => JObj []
        | validFaqs =>
            JObj [ ("@context", JStr "https://schema.org");
                   ("@type", JStr "FAQPage");
                   ("mainEntity", JArr (map faq_question validFaqs)) ]
        end)
  /\ (forall faqArray,
        faq_entries (buildFaqSchema faqArray)
        = map faq_question (filter complete_pair faqArray))
  /\ (forall faqArray, exists fields, buildFaqSchema faqArray = JObj fields)
  /\ (forall question answer,
        complete_pair (mkFaqItem None answer) = false
        /\ complete_pair (mkFaqItem question None) = false
        /\ complete_pair (mkFaqItem (Some "") answer) = false
        /\ complete_pair (mkFaqItem question (Some "")) = false)
  /\ buildFaqSchema [] = JObj []
  /\ buildFaqSchema [mkFaqItem (Some "") (Some "")] = JObj []
  /\ buildFaqSchema [mkFaqItem (Some "A?") (Some "B.")]
     = JObj [ ("@context", JStr "https://schema.org");
              ("@type", JStr "FAQPage");
              ("mainEntity",
                JArr [ JObj [ ("@type", JStr "Question");
                              ("name", JStr "A?");
                              ("acceptedAnswer",
                                JObj [ ("@type", JStr "Answer");
                                       ("text", JStr "B.") ]) ] ]) ]
  /\ List.length
       (faq_entries (buildFaqSchema [mkFaqItem (Some "A?") (Some "B.")])) = 1.
Proof.
  assert (Shape : forall faqArray,
      buildFaqSchema faqArray
      = match filter complete_pair faqArray with
        | [] => JObj []
        | validFaqs =>
            JObj [ ("@context", JStr "https://schema.org");
                   ("@type", JStr "FAQPage");
                   ("mainEntity", JArr (map faq_question validFaqs)) ]
        end).
  { intros faqArray. unfold buildFaqSchema. rewrite filter_complete_pair.
    destruct faqArray as [|faq rest]; [reflexivity |].
    destruct (filter complete_pair (faq :: rest)); reflexivity. }
  split; [exact Shape |]. split; [| split; [| split]].
  - intros faqArray. rewrite Shape.
    destruct (filter complete_pair faqArray); reflexivity.
  - intros faqArray. rewrite Shape.
    destruct (filter complete_pair faqArray); eexists; reflexivity.
  - intros question answer. unfold complete_pair. cbn.
    repeat split; try reflexivity;
      destruct question as [[|? ?]|]; reflexivity.
  - repeat split.
Qed.

End FaqClaims.

(* ================================================================= *)
(** ** The render dispatcher *)

Module RenderClaims.
Import PageModel Pages.

Section Dispatcher.

Variable renderFile : string -> Page -> list Page -> option string.
Variable legacy_markup : Page -> list Page -> string.

(** A slug without a page gives the not-found document, which depends on
    the slug alone. *)
Lemma render_not_found (store : Store) (s : string) :
  findOne store s = None ->
  render renderFile legacy_markup store s = Status404 (not_found_html s).
Proof. intros H. unfold render. now rewrite H. Qed.

(** A key that is neither an entry of the map nor a member of the
    prototype resolves to the entry of [minimal]. *)
Lemma resolve_unknown_key (key : string) :
  get key = None ->
  resolve key
  = Some (Own (mkTemplateDef (Some "basic") (Some "page_template_minimal")
                             false)).
Proof. intros H. unfold resolve. now rewrite H. Qed.

(** A key that names a member of the prototype resolves to that member,
    which has no view and no variant; the page is rendered, if at all,
    through the view [undefined.ejs]. *)
Lemma render_inherited_key (store : Store) (page : Page) (member : string) :
  findOne store (slug page) = Some page ->
  get (templateKey page) = Some (Inherited member) ->
  render renderFile legacy_markup store (slug page)
  = match renderFile "undefined.ejs" page (find_related store page) with
    | Some bodyHtml =>
        Status200 (mkDocument (title page) (metaDescription page) "undefined"
                              bodyHtml (structured_data page))
    | None => Status500 server_error_html
    end.
Proof.
  intros Hfound Hget. unfold render, resolve. now rewrite Hfound, Hget.
Qed.

End Dispatcher.

(** C9, at the failing input.  A template whose key is [constructor]
    generates a page under that key; the key is absent from the map's own entries, yet
    reading it on the map gives the inherited member, not [undefined], so
    the fallback to [minimal] is not taken and rendering the page answers
    with the server-error document.  A key that is merely unknown does
    fall back to the minimal view and the [basic] variant. *)
Theorem render_constructor_key_server_error :
  map (fun page => (slug page, templateKey page))
      (Examples.generated_store Examples.constructor_template)
  = [("plumber", "constructor")]
  /\ own_property "constructor" TEMPLATE_MAP = None
  /\ resolve "constructor" = Some (Inherited "constructor")
  /\ render Reference.renderFile Reference.legacy_markup
       (Examples.generated_store Examples.constructor_template) "plumber"
     = Status500 server_error_html
  /\ map (fun page => (slug page, templateKey page))
         (Examples.generated_store Examples.unknown_key_template)
     = [("plumber", "landing-v2")]
  /\ render Reference.renderFile Reference.legacy_markup
       (Examples.generated_store Examples.unknown_key_template) "plumber"
     = Status200 (mkDocument "plumber in Reno" "Find a plumber in Reno"
                             "basic" "<h1>plumber</h1>" None).
Proof. repeat split; vm_compute; reflexivity. Qed.

End RenderClaims.

(* ================================================================= *)
(** ** Worked examples *)

Module Checks.
Import Templating PageModel Admin.

(** One row [keyword: plumber, city: Reno] under the title
    [{keyword} in {city}] gives one page, titled [plumber in Reno], under
    the slug [plumber]. *)
Example end_to_end_plumber :
  map summary_entry (Examples.generated_store Examples.city_template)
  = [("plumber", "plumber in Reno")].
Proof. vm_compute. reflexivity. Qed.

(** Two plumbers around a blank row: the second plumber gets the suffix
    [-1], the blank row fails validation and is counted, and the batch goes
    on. *)
Example plumber_batch_summary :
  generate Reference.regex_replace Reference.slugify Reference.validate
    4 [] Examples.plumber_batch (Some Examples.city_template)
  = Return
      (mkState
         [ mkPage "plumber" "plumber in Reno" "Find a plumber in Reno"
                  "plumber" [] [] (JObj []) Examples.plumber_row "minimal";
           mkPage "plumber-1" "plumber in Reno" "Find a plumber in Reno"
                  "plumber" [] [] (JObj []) Examples.plumber_row "minimal" ]
         (mkResults 2 0 1
            [("plumber", "plumber in Reno"); ("plumber-1", "plumber in Reno")])
         [(2, ValidationError)],
       Status200 "Generated 2 pages successfully"
         (mkResults 2 0 1
            [("plumber", "plumber in Reno"); ("plumber-1", "plumber in Reno")])).
Proof. vm_compute. reflexivity. Qed.

(** Variables [city] and [keyword] against the headers [keyword]. *)
Example validateTemplate_missing_city :
  validateTemplate Examples.city_template ["keyword"]
  = mkValidation false ["city"] (Some "Missing CSV columns: city").
Proof. vm_compute. reflexivity. Qed.

(** A column named by a number gives a pattern the constructor rejects;
    the row fails in [processTemplate]. *)
Example numeric_column_throws :
  processTemplate Reference.regex_replace Reference.slugify 1
    Examples.city_template [("keyword", "plumber"); ("2024", "x")] None
  = Throw (TemplateProcessingError (SyntaxError "{2024}")).
Proof. vm_compute. reflexivity. Qed.

(** The replacement patterns of [String.prototype.replace] are live in a
    value. *)
Example dollar_patterns_in_value :
  fill Reference.regex_replace "from {price}" [("price", "$$5 ($&)")]
  = Return "from $5 ({price})".
Proof. vm_compute. reflexivity. Qed.

End Checks.

(* ================================================================= *)
(** * Further properties of the code *)

Lemma includes_In (arr : list string) (x : string) :
  JS.includes arr x = true <-> In x arr.
Proof.
  unfold JS.includes. rewrite existsb_exists. split.
  - intros [y [Hy Heq]]. apply String.eqb_eq in Heq. now subst.
  - intros H. exists x. split; [exact H | apply String.eqb_refl].
Qed.

Lemma length_zero_nil {A} (l : list A) : Nat.eqb (List.length l) 0 = true <-> l = [].
Proof. destruct l; simpl; split; congruence. Qed.

(** ** Template validation, substitution and template processing *)

Module TemplatingExtras.
Import Templating.

Lemma absent_variables_In (variables csvHeaders : list string) (v : string) :
  In v (filter (fun variable => negb (JS.includes csvHeaders variable))
               variables)
  <-> In v variables /\ ~ In v csvHeaders.
Proof.
  rewrite filter_In, negb_true_iff.
  split; intros [Hv Hout]; (split; [exact Hv |]).
  - intros Hin. apply includes_In in Hin. congruence.
  - destruct (JS.includes csvHeaders v) eqn:E; [| reflexivity].
    exfalso. now apply Hout, includes_In.
Qed.

Lemma validateTemplate_valid_iff (template : Template)
    (csvHeaders : list string) :
  isValid (validateTemplate template csvHeaders) = true
  <-> exists variables,
        tpl_variables template = Some variables
        /\ forall v, In v variables -> In v csvHeaders.
Proof.
  unfold validateTemplate.
  destruct (tpl_variables template) as [variables|]; cbn [isValid].
  - rewrite length_zero_nil. split.
    + intros Hnil. exists variables. split; [reflexivity |].
      intros v Hv.
      destruct (in_dec string_dec v csvHeaders) as [Hin | Hout];
        [exact Hin | exfalso].
      assert (Hv' : In v (filter (fun variable =>
                                    negb (JS.includes csvHeaders variable))
                                 variables))
        by now apply absent_variables_In.
      rewrite Hnil in Hv'. destruct Hv'.
    + intros [variables' [Heq Hall]]. injection Heq as <-.
      destruct (filter _ variables) as [|v rest] eqn:Ha; [reflexivity |].
      exfalso.
      assert (Hv : In v (filter (fun variable =>
                                   negb (JS.includes csvHeaders variable))
                                variables))
        by (rewrite Ha; now left).
      apply absent_variables_In in Hv. destruct Hv as [Hv Hout].
      now apply Hout, Hall.
  - split; [discriminate |]. intros [variables [Heq _]]. discriminate.
Qed.

(** X1.  A template is valid exactly when it has a variables array all of
    whose entries are among the headers; the report lists exactly the
    variables that are not, and carries an error message exactly when the
    template is invalid. *)
Theorem validateTemplate_report (template : Template)
    (csvHeaders : list string) :
  (isValid (validateTemplate template csvHeaders) = true
   <-> exists variables,
         tpl_variables template = Some variables
         /\ forall v, In v variables -> In v csvHeaders)
  /\ (forall variables v,
        tpl_variables template = Some variables ->
        (In v (missing (validateTemplate template csvHeaders))
         <-> In v variables /\ ~ In v csvHeaders))
  /\ (isValid (validateTemplate template csvHeaders) = true
      <-> error_message (validateTemplate template csvHeaders) = None)
  /\ (tpl_variables template = None ->
      missing (validateTemplate template csvHeaders) = []).
Proof.
  split; [apply validateTemplate_valid_iff |].
  unfold validateTemplate.
  destruct (tpl_variables template) as [variables|];
    cbn [isValid missing error_message].
  - split; [| split].
    + intros variables' v Heq. injection Heq as <-.
      apply absent_variables_In.
    + destruct (filter _ variables); cbn; split; congruence.
    + discriminate.
  - split; [| split].
    + discriminate.
    + split; discriminate.
    + reflexivity.
Qed.

Lemma bind_throw_inv {A B} (m : outcome A) (f : A -> outcome B) (e : error) :
  bind m f = Throw e ->
  m = Throw e \/ exists x, m = Return x /\ f x = Throw e.
Proof.
  destruct m as [x| e' |]; simpl; intros H; try discriminate.
  - right. now exists x.
  - left. injection H as <-. reflexivity.
Qed.

Lemma map_outcome_length {A B} (f : A -> outcome B) (l : list A) :
  forall l', map_outcome f l = Return l' -> List.length l' = List.length l.
Proof.
  induction l as [|x l IH]; intros l' H; cbn [map_outcome] in H.
  - injection H as <-. reflexivity.
  - apply bind_return_inv in H. destruct H as [y [_ H]].
    apply bind_return_inv in H. destruct H as [ys [Hys H]].
    injection H as <-. cbn [List.length]. now rewrite (IH ys Hys).
Qed.

Lemma map_outcome_Forall {A B} (f : A -> outcome B) (P : B -> Prop)
    (l : list A) :
  (forall x y, f x = Return y -> P y) ->
  forall l', map_outcome f l = Return l' -> Forall P l'.
Proof.
  intros Hf. induction l as [|x l IH]; intros l' H; cbn [map_outcome] in H.
  - injection H as <-. constructor.
  - apply bind_return_inv in H. destruct H as [y [Hy H]].
    apply bind_return_inv in H. destruct H as [ys [Hys H]].
    injection H as <-. constructor; [now apply (Hf x) | now apply IH].
Qed.

Lemma map_outcome_throw {A B} (f : A -> outcome B) (l : list A) (e : error) :
  map_outcome f l = Throw e -> exists x, In x l /\ f x = Throw e.
Proof.
  induction l as [|x l IH]; cbn [map_outcome]; intros H; [discriminate |].
  apply bind_throw_inv in H. destruct H as [H | [y [_ H]]].
  - exists x. split; [now left | exact H].
  - apply bind_throw_inv in H. destruct H as [H | [ys [_ H]]];
      [| discriminate].
    destruct (IH H) as [x' [Hin Hx']]. exists x'. split; [now right | exact Hx'].
Qed.

Lemma rethrow_throw_cause {A} (h : error -> error) (m : outcome A) (e : error) :
  rethrow h m = Throw e -> exists cause, m = Throw cause /\ e = h cause.
Proof.
  destruct m as [x | cause |]; simpl; intros H; try discriminate.
  injection H as <-. now exists cause.
Qed.

Lemma makeUniqueSlug_never_throws (slugify : string -> string) (fuel : nat)
    (keyword : string) (checkExists : option (string -> bool)) (e : error) :
  makeUniqueSlug slugify fuel keyword checkExists <> Throw e.
Proof.
  unfold makeUniqueSlug.
  destruct (negb (JS.truthy keyword)); [discriminate |].
  destruct checkExists; [apply SlugFacts.loop_never_throws | discriminate].
Qed.

Section AnyEngine.

Variable regex_replace : string -> string -> string -> option string.

Lemma fill_keys_throw (entries : Row) :
  forall result e,
    fill_keys regex_replace entries result = Throw e ->
    exists key,
      In key (JS.keys entries)
      /\ e = SyntaxError (token key)
      /\ exists replacement subject,
           regex_replace (token key) replacement subject = None.
Proof.
  induction entries as [|[key value] entries IH]; intros result e;
    cbn [fill_keys]; [discriminate |].
  destruct (regex_replace (token key) _ result) as [result'|] eqn:Hr.
  - intros H. destruct (IH _ _ H) as [key' [Hin Hrest]].
    exists key'. split; [now right | exact Hrest].
  - intros H. injection H as <-. exists key.
    split; [now left |]. split; [reflexivity | eauto].
Qed.

Lemma fill_keys_accepted (entries : Row) :
  (forall key,
      In key (JS.keys entries) ->
      forall replacement subject,
        regex_replace (token key) replacement subject <> None) ->
  forall result, exists r, fill_keys regex_replace entries result = Return r.
Proof.
  induction entries as [|[key value] entries IH]; intros Hok result;
    cbn [fill_keys]; [eauto |].
  destruct (regex_replace (token key) _ result) as [result'|] eqn:Hr.
  - apply IH. intros key' Hin. apply Hok. now right.
  - exfalso. apply (Hok key (or_introl eq_refl) _ _ Hr).
Qed.

Lemma fill_keys_app (first second : Row) :
  forall result,
    fill_keys regex_replace (first ++ second)%list result
    = (partial <- fill_keys regex_replace first result ;;
       fill_keys regex_replace second partial).
Proof.
  induction first as [|[key value] first IH]; intros result;
    [reflexivity |].
  rewrite <- app_comm_cons. cbn [fill_keys].
  destruct (regex_replace (token key) _ result); [apply IH | reflexivity].
Qed.

Lemma fill_throw_key (str : string) (vars : Row) (e : error) :
  fill regex_replace str vars = Throw e ->
  str <> ""
  /\ exists key,
       In key (JS.keys vars)
       /\ e = SyntaxError (token key)
       /\ exists replacement subject,
            regex_replace (token key) replacement subject = None.
Proof.
  unfold fill.
  destruct str as [|c str]; cbn [JS.truthy negb]; [discriminate |].
  intros H. split; [discriminate | now apply fill_keys_throw in H].
Qed.

(** X2.  Substitution throws only the syntax error of a key of the row
    whose pattern the engine rejects, and only on a text that is not
    empty: the empty text comes back as it is whatever the row, and a row
    all of whose patterns are accepted never throws. *)
Theorem fill_throws_only_on_rejected_key (str : string) (vars : Row) :
  (forall e,
      fill regex_replace str vars = Throw e ->
      str <> ""
      /\ exists key,
           In key (JS.keys vars)
           /\ e = SyntaxError (token key)
           /\ exists replacement subject,
                regex_replace (token key) replacement subject = None)
  /\ ((forall key,
          In key (JS.keys vars) ->
          forall replacement subject,
            regex_replace (token key) replacement subject <> None) ->
      exists result, fill regex_replace str vars = Return result)
  /\ fill regex_replace "" vars = Return "".
Proof.
  split; [| split].
  - intros e. apply fill_throw_key.
  - intros Hok. unfold fill.
    destruct (negb (JS.truthy str)); [eauto | now apply fill_keys_accepted].
  - reflexivity.
Qed.

Lemma processTemplate_return_shape (slugify : string -> string) (fuel : nat)
    (template : Template) (vars : Row)
    (checkSlugExists : option (string -> bool)) (processed : Processed) :
  processTemplate regex_replace slugify fuel template vars checkSlugExists
  = Return processed ->
  List.length (pr_sections processed)
  = List.length (match tpl_sections template with
                 | Some l => l
                 | None => []
                 end)
  /\ List.length (pr_faq processed)
     = List.length (match tpl_faq template with
                    | Some l => l
                    | None => []
                    end)
  /\ Forall (fun item => exists fq fa, item = mkFaqItem (Some fq) (Some fa))
            (pr_faq processed)
  /\ pr_templateKey processed = JS.or_else (tpl_templateKey template) "default"
  /\ pr_faqSchema processed = buildFaqSchema (pr_faq processed).
Proof.
  intros H. unfold processTemplate in H.
  apply rethrow_return_inv in H.
  do 3 (apply bind_return_inv in H; destruct H as [? [_ H]]).
  apply bind_return_inv in H. destruct H as [secs [Hsecs H]].
  apply bind_return_inv in H. destruct H as [pairs [Hpairs H]].
  apply bind_return_inv in H. destruct H as [allocated [_ H]].
  injection H as <-.
  cbn [pr_sections pr_faq pr_templateKey pr_faqSchema].
  repeat split.
  - destruct (tpl_sections template);
      [now apply map_outcome_length in Hsecs | now injection Hsecs as <-].
  - destruct (tpl_faq template);
      [now apply map_outcome_length in Hpairs | now injection Hpairs as <-].
  - destruct (tpl_faq template); [| injection Hpairs as <-; constructor].
    revert Hpairs. apply map_outcome_Forall.
    intros item result Hitem.
    apply bind_return_inv in Hitem. destruct Hitem as [fq [_ Hitem]].
    apply bind_return_inv in Hitem. destruct Hitem as [fa [_ Hitem]].
    injection Hitem as <-. now exists fq, fa.
Qed.

(** X4.  What template processing resolves to has as many sections and
    question/answer pairs as the template, each pair with both fields
    set, the template's key or [default] in its place, and the structured
    data of its own pairs; what it throws is the wrapped syntax error of a
    key of the row. *)
Theorem processTemplate_shape (slugify : string -> string) (fuel : nat)
    (template : Template) (vars : Row)
    (checkSlugExists : option (string -> bool)) :
  (forall processed,
      processTemplate regex_replace slugify fuel template vars checkSlugExists
      = Return processed ->
      List.length (pr_sections processed)
      = List.length (match tpl_sections template with
                     | Some l => l
                     | None => []
                     end)
      /\ List.length (pr_faq processed)
         = List.length (match tpl_faq template with
                        | Some l => l
                        | None => []
                        end)
      /\ Forall (fun item => exists fq fa, item = mkFaqItem (Some fq) (Some fa))
                (pr_faq processed)
      /\ pr_templateKey processed = JS.or_else (tpl_templateKey template) "default"
      /\ pr_faqSchema processed = buildFaqSchema (pr_faq processed))
  /\ (forall e,
        processTemplate regex_replace slugify fuel template vars
          checkSlugExists = Throw e ->
        exists key,
          In key (JS.keys vars)
          /\ e = TemplateProcessingError (SyntaxError (token key))).
Proof.
  assert (Hfill : forall str e,
             fill regex_replace str vars = Throw e ->
             exists key,
               In key (JS.keys vars)
               /\ TemplateProcessingError e
                  = TemplateProcessingError (SyntaxError (token key))).
  { intros str e H.
    destruct (fill_throw_key str vars e H) as [_ [key [Hin [-> _]]]].
    now exists key. }
  split.
  - intros processed. apply processTemplate_return_shape.
  - intros e H. unfold processTemplate in H.
    apply rethrow_throw_cause in H. destruct H as [cause [H ->]].
    do 3 (apply bind_throw_inv in H;
          destruct H as [H | [? [_ H]]]; [now apply Hfill in H |]).
    apply bind_throw_inv in H. destruct H as [H | [secs [_ H]]].
    { destruct (tpl_sections template); [| discriminate].
      apply map_outcome_throw in H. destruct H as [section [_ H]].
      now apply Hfill in H. }
    apply bind_throw_inv in H. destruct H as [H | [pairs [_ H]]].
    { destruct (tpl_faq template); [| discriminate].
      apply map_outcome_throw in H. destruct H as [item [_ H]].
      do 2 (apply bind_throw_inv in H;
            destruct H as [H | [? [_ H]]]; [now apply Hfill in H |]).
      discriminate. }
    apply bind_throw_inv in H. destruct H as [H | [allocated [_ H]]].
    + now apply makeUniqueSlug_never_throws in H.
    + discriminate.
Qed.

End AnyEngine.

Lemma fill_keys_empty_text
    (regex_replace : string -> string -> string -> option string)
    (entries : Row) :
  literal_engine regex_replace ->
  Forall (fun entry => JS.literal_key (fst entry) = true) entries ->
  fill_keys regex_replace entries "" = Return "".
Proof.
  intros engine Hkeys.
  induction Hkeys as [|[key value] entries Hkey _ IH]; [reflexivity |].
  cbn [fill_keys]. cbn [fst] in Hkey. rewrite (engine key _ _ Hkey).
  exact IH.
Qed.

(** X3.  Substituting with a row made of two parts is substituting with
    the first part and then, in the result, with the second, when the
    engine replaces literally and the keys of the second part are
    literal. *)
Theorem fill_concatenated_rows
    (regex_replace : string -> string -> string -> option string)
    (str : string) (first second : Row) :
  literal_engine regex_replace ->
  Forall (fun entry => JS.literal_key (fst entry) = true) second ->
  fill regex_replace str (first ++ second)%list
  = (partial <- fill regex_replace str first ;;
     fill regex_replace partial second).
Proof.
  intros engine Hkeys. unfold fill at 1 2.
  destruct (JS.truthy str) eqn:Hstr; cbn [negb].
  - rewrite fill_keys_app.
    destruct (fill_keys regex_replace first str) as [partial | e |];
      cbn [bind]; try reflexivity.
    unfold fill. destruct (JS.truthy partial) eqn:Hp; cbn [negb];
      [reflexivity |].
    apply truthy_false_iff in Hp. subst partial.
    now apply fill_keys_empty_text.
  - apply truthy_false_iff in Hstr. subst str. reflexivity.
Qed.

Lemma fill_concatenated_rows_witness :
  fill Reference.regex_replace "{keyword} in {city}"
    ([("keyword", "plumber")] ++ [("city", "Reno")])%list
  = (partial <- fill Reference.regex_replace "{keyword} in {city}"
                  [("keyword", "plumber")] ;;
     fill Reference.regex_replace partial [("city", "Reno")]).
Proof.
  apply (fill_concatenated_rows Reference.regex_replace
           "{keyword} in {city}" [("keyword", "plumber")] [("city", "Reno")]
           FillRows.reference_engine_literal).
  repeat constructor.
Defined.

(** X5.  Against a collection, allocation from a seed that is not empty
    returns once it has checked the candidates base, base-1, ... up to the
    first one the collection does not hold; the suffix it reaches is at
    most the number of documents, and [length store + 1] iterations are
    enough. *)
Theorem makeUniqueSlug_on_collection (slugify : string -> string)
    (store : PageModel.Store) (fuel : nat) (keyword : string) :
  keyword <> "" ->
  List.length store < fuel ->
  exists k,
    k <= List.length store
    /\ makeUniqueSlug slugify fuel keyword
         (Some (Admin.checkSlugExists store))
       = Return (candidate (slugify keyword) k,
                 map (candidate (slugify keyword)) (seq 0 (S k)))
    /\ ~ In (candidate (slugify keyword) k) (PageModel.slugs store)
    /\ forall j, j < k ->
                 In (candidate (slugify keyword) j) (PageModel.slugs store).
Proof.
  intros Hkw Hfuel.
  destruct (GenerateFacts.unused_candidate_within store (slugify keyword)
              (S (List.length store)) (Nat.lt_succ_diag_r _))
    as [j [Hj Hfree]].
  destruct (SlugFacts.loop_first_unused (Admin.checkSlugExists store)
              (slugify keyword) fuel 0 [])
    as [n [_ [Hrun [Hnfree Hbefore]]]].
  { exists j. split; [lia | exact Hfree]. }
  cbn [Nat.add app] in Hrun, Hnfree, Hbefore.
  exists n. repeat split.
  - destruct (Nat.le_gt_cases n j) as [Hle | Hgt]; [lia |].
    specialize (Hbefore j Hgt). congruence.
  - unfold makeUniqueSlug. apply truthy_true_iff in Hkw. rewrite Hkw.
    exact Hrun.
  - rewrite <- GenerateFacts.checkSlugExists_In. congruence.
  - intros i Hi. apply GenerateFacts.checkSlugExists_In. now apply Hbefore.
Qed.

Lemma makeUniqueSlug_on_collection_witness :
  exists k,
    k <= 2
    /\ makeUniqueSlug Reference.slugify 3 "Roofer"
         (Some (Admin.checkSlugExists MoreExamples.two_pages))
       = Return (candidate "roofer" k, map (candidate "roofer") (seq 0 (S k)))
    /\ ~ In (candidate "roofer" k) (PageModel.slugs MoreExamples.two_pages)
    /\ forall j, j < k ->
                 In (candidate "roofer" j)
                    (PageModel.slugs MoreExamples.two_pages).
Proof.
  apply (makeUniqueSlug_on_collection Reference.slugify
           MoreExamples.two_pages 3 "Roofer").
  - discriminate.
  - repeat constructor.
Defined.

End TemplatingExtras.

(* ================================================================= *)
(** ** The collection: finding what was appended *)

Module StoreFacts.
Import PageModel AdminPages.

Lemma findOne_None_iff (store : Store) (s : string) :
  findOne store s = None <-> ~ In s (slugs store).
Proof.
  rewrite <- GenerateFacts.checkSlugExists_In.
  unfold Admin.checkSlugExists.
  destruct (findOne store s); split; congruence.
Qed.

Lemma findOne_app (first second : Store) (s : string) :
  findOne (first ++ second)%list s
  = match findOne first s with
    | Some page => Some page
    | None => findOne second s
    end.
Proof.
  unfold findOne.
  induction first as [|page first IH]; [reflexivity |].
  rewrite <- app_comm_cons. cbn [find].
  destruct (has_slug s page); [reflexivity | exact IH].
Qed.

Lemma findOne_slug (store : Store) (s : string) (page : Page) :
  findOne store s = Some page -> In page store /\ slug page = s.
Proof.
  unfold findOne. intros H. apply find_some in H. destruct H as [Hin Hs].
  split; [exact Hin | now apply String.eqb_eq in Hs].
Qed.

(** A page appended under a fresh slug is the page its slug finds. *)
Lemma findOne_appended (created : list Page) :
  forall store page,
    appended_fresh store created ->
    In page created ->
    findOne (store ++ created)%list (slug page) = Some page.
Proof.
  induction created as [|first rest IH]; intros store page Hfresh Hin;
    [destruct Hin |].
  cbn [appended_fresh] in Hfresh. destruct Hfresh as [Hnew Hrest].
  destruct Hin as [-> | Hin].
  - rewrite findOne_app.
    apply findOne_None_iff in Hnew. rewrite Hnew.
    unfold findOne. cbn [find]. unfold has_slug at 1.
    now rewrite String.eqb_refl.
  - replace (store ++ first :: rest)%list
      with ((store ++ [first]) ++ rest)%list
      by now rewrite <- app_assoc.
    now apply IH.
Qed.

End StoreFacts.

(* ================================================================= *)
(** ** The generation batch, further *)

Module GenerateExtras.
Import Templating PageModel Admin AdminPages StoreFacts.

Section Batch.

Variable regex_replace : string -> string -> string -> option string.
Variable slugify : string -> string.
Variable validate : Page -> bool.

Lemma process_row_return (fuel : nat) (template : Template) (store : Store)
    (rowData : Row) (store' : Store) (processed : Processed) :
  process_row regex_replace slugify validate fuel template store rowData
  = Return (store', processed) ->
  exists page,
    store' = (store ++ [page])%list
    /\ ~ In (slug page) (slugs store)
    /\ summary_entry page = (pr_slug processed, pr_title processed)
    /\ made_from validate template [rowData] page.
Proof.
  unfold process_row. intros H.
  apply bind_return_inv in H. destruct H as [processedData [Hp H]].
  apply bind_return_inv in H. destruct H as [saved [Hsave H]].
  injection H as <- <-.
  unfold save in Hsave.
  set (page := mkPage _ _ _ _ _ _ _ _ _) in Hsave.
  destruct (validate page) eqn:Hv; cbn [negb] in Hsave; [| discriminate].
  destruct (existsb (has_slug (slug page)) store) eqn:Hex; [discriminate |].
  injection Hsave as <-.
  destruct (TemplatingExtras.processTemplate_return_shape regex_replace
              slugify fuel template rowData _ processedData Hp)
    as [Hsec [Hfaq [_ [Hkey Hschema]]]].
  exists page. repeat split; try assumption.
  - rewrite GenerateFacts.existsb_has_slug in Hex.
    rewrite <- GenerateFacts.checkSlugExists_In. congruence.
  - now left.
Qed.

Lemma made_from_incl (template : Template) (rows rows' : list Row)
    (page : Page) :
  incl rows rows' -> made_from validate template rows page ->
  made_from validate template rows' page.
Proof.
  unfold made_from. intros Hincl [Hin Hrest]. split; [now apply Hincl | exact Hrest].
Qed.

(** The pages a run of the loop has appended. *)
Lemma generate_rows_created (fuel : nat) (template : Template) :
  forall rows i st st',
    generate_rows regex_replace slugify validate fuel template rows i st
    = Return st' ->
    exists created,
      st_store st' = (st_store st ++ created)%list
      /\ appended_fresh (st_store st) created
      /\ Forall (made_from validate template rows) created
      /\ Admin.pages (st_results st')
         = (Admin.pages (st_results st) ++ map summary_entry created)%list.
Proof.
  induction rows as [|rowData rows IH]; intros i st st' H;
    cbn [generate_rows] in H.
  - injection H as <-. exists []. rewrite !app_nil_r.
    repeat split; constructor.
  - destruct (process_row _ _ _ _ _ _ rowData)
      as [[store' processed] | e |] eqn:Hrow; [| | discriminate].
    + destruct (process_row_return _ _ _ _ _ _ Hrow)
        as [page [-> [Hnew [Hsum Hmade]]]].
      destruct (IH _ _ _ H) as [created [Hstore [Hfresh [Hall Hpages]]]].
      cbn [st_store st_results Admin.pages] in Hstore, Hfresh, Hpages.
      exists (page :: created). repeat split.
      * now rewrite Hstore, <- app_assoc.
      * exact Hnew.
      * exact Hfresh.
      * constructor.
        -- apply (made_from_incl template [rowData]); [| exact Hmade].
           intros r [<- | []]. now left.
        -- eapply Forall_impl; [| exact Hall].
           intros p. apply made_from_incl. intros r Hr. now right.
      * rewrite Hpages, <- app_assoc. cbn [map app]. now rewrite Hsum.
    + destruct (IH _ _ _ H) as [created [Hstore [Hfresh [Hall Hpages]]]].
      cbn [st_store st_results Admin.pages] in Hstore, Hfresh, Hpages.
      exists created. repeat split; try assumption.
      eapply Forall_impl; [| exact Hall].
      intros p. apply made_from_incl. intros r Hr. now right.
Qed.

(** What a batch that answered has appended. *)
Lemma generate_created (fuel : nat) (store : Store) (rows : list Row)
    (template : option Template) (st : State) (resp : response) :
  generate regex_replace slugify validate fuel store rows template
  = Return (st, resp) ->
  exists created,
    st_store st = (store ++ created)%list
    /\ appended_fresh store created
    /\ Admin.pages (st_results st) = map summary_entry created
    /\ forall page,
         In page created ->
         exists t, template = Some t /\ made_from validate t rows page.
Proof.
  assert (Untouched : forall r : response,
    Return (mkState store (mkResults 0 0 0 []) [], r) = Return (st, resp) ->
    exists created,
      st_store st = (store ++ created)%list
      /\ appended_fresh store created
      /\ Admin.pages (st_results st) = map summary_entry created
      /\ forall page,
           In page created ->
           exists t, template = Some t /\ made_from validate t rows page).
  { intros r H. injection H as <- _. exists []. cbn. rewrite app_nil_r.
    repeat split. intros page []. }
  unfold generate.
  destruct rows as [|first rest]; [apply Untouched |].
  destruct template as [t|]; [| apply Untouched].
  destruct (negb (isValid _)); [apply Untouched |].
  intros H. apply bind_return_inv in H. destruct H as [st' [Hrun H]].
  injection H as <- _.
  destruct (generate_rows_created _ _ _ _ _ _ Hrun)
    as [created [Hstore [Hfresh [Hall Hpages]]]].
  cbn [st_store st_results Admin.pages app] in Hstore, Hfresh, Hpages.
  exists created. repeat split; try assumption.
  intros page Hin. exists t. split; [reflexivity |].
  now apply (proj1 (Forall_forall _ _) Hall).
Qed.

End Batch.

Lemma validateTemplate_invalid_error (template : Template)
    (csvHeaders : list string) :
  isValid (validateTemplate template csvHeaders) = false ->
  error_message (validateTemplate template csvHeaders) <> None.
Proof.
  unfold validateTemplate.
  destruct (tpl_variables template) as [variables|];
    cbn [isValid error_message]; [| discriminate].
  destruct (filter _ variables); cbn; discriminate.
Qed.

Lemma render_found
    (renderFile : string -> Page -> list Page -> option string)
    (legacy_markup : Page -> list Page -> string)
    (store : Store) (s : string) (page : Page) :
  findOne store s = Some page ->
  forall html,
    Pages.render renderFile legacy_markup store s <> Pages.Status404 html.
Proof.
  intros Hfound html. unfold Pages.render. rewrite Hfound.
  destruct (Pages.resolve (templateKey page)) as [def|]; [| discriminate].
  destruct (Pages.get_legacyInline def); [discriminate |].
  destruct (renderFile _ page _); discriminate.
Qed.

(** X6.  With fuel enough for the collection and the rows, the batch
    answers 200 exactly when there is a first row, a template, and a
    variables array all of whose entries are keys of that first row; the
    other rows are not looked at.  A 400 answer carries an error text and
    leaves the collection and the counters as they were. *)
Theorem generate_accepts_on_first_row
    (regex_replace : string -> string -> string -> option string)
    (slugify : string -> string) (validate : Page -> bool)
    (fuel : nat) (store : Store) (rows : list Row)
    (template : option Template) :
  List.length store + List.length rows < fuel ->
  ((exists st message results,
       generate regex_replace slugify validate fuel store rows template
       = Return (st, Admin.Status200 message results))
   <-> exists first rest t variables,
         rows = first :: rest
         /\ template = Some t
         /\ tpl_variables t = Some variables
         /\ forall v, In v variables -> In v (JS.keys first))
  /\ (forall st error_text missing_variables,
        generate regex_replace slugify validate fuel store rows template
        = Return (st, Admin.Status400 error_text missing_variables) ->
        st_store st = store
        /\ st_results st = mkResults 0 0 0 []
        /\ error_text <> None).
Proof.
  intros Hfuel. unfold generate.
  destruct rows as [|first rest].
  { split.
    - split; [intros [st [m [r H]]]; discriminate |].
      intros [first [rest [t [vs [H _]]]]]. discriminate.
    - intros st e m H. injection H as <- <- _. repeat split. discriminate. }
  destruct template as [t|].
  2:{ split.
      - split; [intros [st [m [r H]]]; discriminate |].
        intros [f [r [t [vs [_ [H _]]]]]]. discriminate.
      - intros st e m H. injection H as <- <- _. repeat split. discriminate. }
  destruct (isValid (validateTemplate t (JS.keys first))) eqn:Hvalid;
    cbn [negb].
  - destruct (GenerateFacts.generate_rows_run regex_replace slugify validate
                fuel t (first :: rest) 0
                (mkState store (mkResults 0 0 0 []) []))
      as [st [created [failures [Hrun _]]]]; [exact Hfuel |].
    rewrite Hrun. cbn [bind]. split.
    + split.
      * intros _.
        apply TemplatingExtras.validateTemplate_valid_iff in Hvalid.
        destruct Hvalid as [vs [Hvs Hall]].
        now exists first, rest, t, vs.
      * intros _. eauto.
    + intros st' e m H. discriminate.
  - split.
    + split; [intros [st [m [r H]]]; discriminate |].
      intros [f [r [t' [vs [Hf [Ht [Hvs Hall]]]]]]].
      injection Hf as <- <-. injection Ht as <-.
      assert (Hv : isValid (validateTemplate t (JS.keys first)) = true).
      { apply TemplatingExtras.validateTemplate_valid_iff. eauto. }
      congruence.
    + intros st e m H. injection H as <- <- _. repeat split.
      now apply validateTemplate_invalid_error.
Qed.

Lemma generate_accepts_on_first_row_witness :
  exists st message results,
    generate Reference.regex_replace Reference.slugify Reference.validate
      4 [] Examples.plumber_batch (Some Examples.city_template)
    = Return (st, Admin.Status200 message results).
Proof.
  apply (proj1 (generate_accepts_on_first_row
                  Reference.regex_replace Reference.slugify
                  Reference.validate 4 [] Examples.plumber_batch
                  (Some Examples.city_template) (Nat.lt_succ_diag_r 3))).
  exists Examples.plumber_row, [Examples.blank_row; Examples.plumber_row],
    Examples.city_template, ["city"; "keyword"].
  repeat split.
  intros v [<- | [<- | []]]; cbn; tauto.
Defined.

(** X7.  Every page a batch appends comes from one of its rows, which it
    keeps as [vars]; it passed validation, carries the template's key (or
    [default]), has as many sections and question/answer pairs as the
    template, and its structured data is that of its own pairs.  The
    documents the collection held stay, in place, before the new ones. *)
Theorem generated_pages_provenance
    (regex_replace : string -> string -> string -> option string)
    (slugify : string -> string) (validate : Page -> bool)
    (fuel : nat) (store : Store) (rows : list Row)
    (template : option Template) (st : State) (resp : Admin.response) :
  generate regex_replace slugify validate fuel store rows template
  = Return (st, resp) ->
  exists created,
    st_store st = (store ++ created)%list
    /\ forall page,
         In page created ->
         exists t, template = Some t /\ made_from validate t rows page.
Proof.
  intros H.
  destruct (generate_created _ _ _ _ _ _ _ _ _ H)
    as [created [Hstore [_ [_ Hall]]]].
  now exists created.
Qed.

(** X8.  Every slug and title the summary of a batch lists can be looked
    up afterwards: the page route returns a page with that slug and that
    title, made from a row of the batch, and the dispatcher does not
    answer with the not-found document. *)
Theorem generated_pages_are_served
    (regex_replace : string -> string -> string -> option string)
    (slugify : string -> string) (validate : Page -> bool)
    (renderFile : string -> Page -> list Page -> option string)
    (legacy_markup : Page -> list Page -> string)
    (fuel : nat) (store : Store) (rows : list Row)
    (template : option Template) (st : State) (resp : Admin.response) :
  generate regex_replace slugify validate fuel store rows template
  = Return (st, resp) ->
  forall s t,
    In (s, t) (Admin.pages (st_results st)) ->
    exists page,
      get_page (st_store st) s = GetOk page
      /\ slug page = s
      /\ title page = t
      /\ In (vars page) rows
      /\ forall html,
           Pages.render renderFile legacy_markup (st_store st) s
           <> Pages.Status404 html.
Proof.
  intros H s t Hin.
  destruct (generate_created _ _ _ _ _ _ _ _ _ H)
    as [created [Hstore [Hfresh [Hpages Hall]]]].
  rewrite Hpages in Hin. apply in_map_iff in Hin.
  destruct Hin as [page [Hsum Hpage]].
  unfold summary_entry in Hsum. injection Hsum as <- <-.
  assert (Hfound : findOne (st_store st) (slug page) = Some page).
  { rewrite Hstore. now apply findOne_appended. }
  destruct (Hall page Hpage) as [tpl [_ [Hrow _]]].
  exists page. repeat split; try assumption.
  - unfold get_page. now rewrite Hfound.
  - now apply render_found with (page := page).
Qed.

Lemma generated_pages_provenance_witness :
  exists created,
    [MoreExamples.plumber_page] = ([] ++ created)%list
    /\ forall page,
         In page created ->
         exists t,
           Some Examples.city_template = Some t
           /\ made_from Reference.validate t [Examples.plumber_row] page.
Proof.
  assert (Hrun :
    generate Reference.regex_replace Reference.slugify Reference.validate
      2 [] [Examples.plumber_row] (Some Examples.city_template)
    = Return
        (mkState [MoreExamples.plumber_page]
           (mkResults 1 0 0 [("plumber", "plumber in Reno")]) [],
         Admin.Status200 "Generated 1 pages successfully"
           (mkResults 1 0 0 [("plumber", "plumber in Reno")])))
    by (vm_compute; reflexivity).
  pose proof (generated_pages_provenance _ _ _ _ _ _ _ _ _ Hrun) as H.
  cbn [st_store] in H. exact H.
Defined.

Lemma generated_pages_are_served_witness :
  exists page,
    get_page [MoreExamples.plumber_page] "plumber"
    = GetOk page
    /\ title page = "plumber in Reno".
Proof.
  assert (Hrun :
    generate Reference.regex_replace Reference.slugify Reference.validate
      2 [] [Examples.plumber_row] (Some Examples.city_template)
    = Return
        (mkState [MoreExamples.plumber_page]
           (mkResults 1 0 0 [("plumber", "plumber in Reno")]) [],
         Admin.Status200 "Generated 1 pages successfully"
           (mkResults 1 0 0 [("plumber", "plumber in Reno")])))
    by (vm_compute; reflexivity).
  pose proof (generated_pages_are_served _ _ _ Reference.renderFile
                Reference.legacy_markup _ _ _ _ _ _ Hrun
                "plumber" "plumber in Reno") as H.
  cbn [st_store st_results Admin.pages] in H.
  destruct (H (or_introl eq_refl)) as [page [Hget [_ [Htitle _]]]].
  exists page. split; [exact Hget | exact Htitle].
Defined.

End GenerateExtras.

(* ================================================================= *)
(** ** Fetching and deleting pages *)

Module AdminPagesExtras.
Import PageModel AdminPages StoreFacts.

Lemma deleteOne_absent (s : string) (store : Store) :
  findOne store s = None -> deleteOne s store = (store, 0).
Proof.
  unfold findOne.
  induction store as [|page store IH]; cbn [find deleteOne]; [reflexivity |].
  destruct (has_slug s page); [discriminate |].
  intros H. now rewrite (IH H).
Qed.

Lemma deleteOne_present (s : string) (store : Store) (page : Page) :
  findOne store s = Some page ->
  snd (deleteOne s store) = 1
  /\ S (List.length (fst (deleteOne s store))) = List.length store.
Proof.
  unfold findOne.
  induction store as [|first store IH]; cbn [find deleteOne]; [discriminate |].
  destruct (has_slug s first); [intros _; split; reflexivity |].
  intros H. destruct (IH H) as [Hn Hlen].
  destruct (deleteOne s store) as [rest n]. cbn [fst snd List.length] in *.
  split; [exact Hn | now rewrite Hlen].
Qed.

Lemma deleteOne_other (s s' : string) (store : Store) :
  s' <> s ->
  findOne (fst (deleteOne s store)) s' = findOne store s'.
Proof.
  intros Hne. unfold findOne.
  induction store as [|page store IH]; cbn [find deleteOne]; [reflexivity |].
  destruct (has_slug s page) eqn:Hs.
  - cbn [fst]. unfold has_slug in Hs |- *. apply String.eqb_eq in Hs.
    destruct (String.eqb_spec (slug page) s'); [congruence | reflexivity].
  - destruct (deleteOne s store) as [rest n]. cbn [fst find] in *.
    now rewrite IH.
Qed.

Lemma deleteOne_slugs (s : string) (store : Store) :
  forall x, In x (slugs (fst (deleteOne s store))) -> In x (slugs store).
Proof.
  unfold slugs.
  induction store as [|page store IH]; cbn [deleteOne]; [intros x [] |].
  destruct (has_slug s page).
  - cbn [fst map]. intros x Hx. now right.
  - destruct (deleteOne s store) as [rest n]. cbn [fst map] in *.
    intros x [Hx | Hx]; [now left | right; now apply IH].
Qed.

Lemma deleteOne_NoDup (s : string) (store : Store) :
  NoDup (slugs store) ->
  NoDup (slugs (fst (deleteOne s store)))
  /\ ~ In s (slugs (fst (deleteOne s store))).
Proof.
  unfold slugs.
  induction store as [|page store IH]; cbn [deleteOne map fst];
    intros Hnd; [split; [constructor | tauto] |].
  inversion Hnd as [|? ? Hfirst Hrest]; subst.
  destruct (has_slug s page) eqn:Hs.
  - cbn [fst]. unfold has_slug in Hs. apply String.eqb_eq in Hs. subst s.
    split; assumption.
  - destruct (IH Hrest) as [Hnd' Hout].
    pose proof (deleteOne_slugs s store) as Hsub. unfold slugs in Hsub.
    destruct (deleteOne s store) as [rest n]. cbn [fst map] in *.
    split.
    + constructor; [| exact Hnd']. intros Hin. now apply Hfirst, Hsub.
    + intros [Heq | Hin]; [| now apply Hout].
      unfold has_slug in Hs. rewrite Heq, String.eqb_refl in Hs. discriminate.
Qed.

(** X9.  Deleting a page answers 404 exactly when no page has the slug,
    and then the collection is as it was; otherwise it answers 200 and the
    collection has one document less.  Either way every other slug finds
    what it found before. *)
Theorem delete_page_effect (store : Store) (s : string) :
  (snd (delete_page store s) = DeleteNotFound "Page not found"
   <-> findOne store s = None)
  /\ (findOne store s = None -> fst (delete_page store s) = store)
  /\ (forall page,
        findOne store s = Some page ->
        snd (delete_page store s) = DeleteOk "Page deleted successfully" None
        /\ S (List.length (fst (delete_page store s))) = List.length store)
  /\ (forall s',
        s' <> s ->
        findOne (fst (delete_page store s)) s' = findOne store s').
Proof.
  unfold delete_page.
  destruct (findOne store s) as [page|] eqn:Hfound.
  - destruct (deleteOne_present s store page Hfound) as [Hn Hlen].
    pose proof (fun s' => deleteOne_other s s' store) as Hother.
    destruct (deleteOne s store) as [store' n]. cbn [fst snd] in *.
    subst n. cbn [Nat.eqb fst snd].
    repeat split; try discriminate; try assumption.
  - rewrite (deleteOne_absent s store Hfound). cbn [Nat.eqb fst snd].
    repeat split; try discriminate.
Qed.

(** X10.  In a collection whose slugs are distinct, a deleted slug is
    gone: the page route and the dispatcher answer not found for it, and
    the slugs that remain are still distinct. *)
Theorem delete_page_then_not_found
    (renderFile : string -> Page -> list Page -> option string)
    (legacy_markup : Page -> list Page -> string)
    (store : Store) (s : string) :
  NoDup (slugs store) ->
  get_page (fst (delete_page store s)) s = GetNotFound "Page not found"
  /\ Pages.render renderFile legacy_markup (fst (delete_page store s)) s
     = Pages.Status404 (Pages.not_found_html s)
  /\ NoDup (slugs (fst (delete_page store s))).
Proof.
  intros Hnd. unfold delete_page.
  destruct (deleteOne_NoDup s store Hnd) as [Hnd' Hout].
  destruct (deleteOne s store) as [store' n]. cbn [fst] in *.
  assert (Hnone : findOne store' s = None) by now apply findOne_None_iff.
  destruct (Nat.eqb n 0); cbn [fst]; repeat split; try assumption;
    unfold get_page, Pages.render; now rewrite Hnone.
Qed.

Lemma delete_page_then_not_found_witness :
  get_page (fst (delete_page MoreExamples.two_pages "plumber")) "plumber"
  = GetNotFound "Page not found"
  /\ Pages.render Reference.renderFile Reference.legacy_markup
       (fst (delete_page MoreExamples.two_pages "plumber")) "plumber"
     = Pages.Status404 (Pages.not_found_html "plumber")
  /\ NoDup (slugs (fst (delete_page MoreExamples.two_pages "plumber"))).
Proof.
  apply delete_page_then_not_found.
  cbv. repeat constructor; cbn; intuition discriminate.
Defined.

Lemma find_filter_kept {A} (p keep : A -> bool) (l : list A) (x : A) :
  find p l = Some x -> keep x = true -> find p (filter keep l) = Some x.
Proof.
  induction l as [|y l IH]; cbn [find filter]; [discriminate |].
  destruct (p y) eqn:Hp.
  - intros H Hk. injection H as ->. rewrite Hk. cbn [find]. now rewrite Hp.
  - intros H Hk. destruct (keep y); [cbn [find]; rewrite Hp |]; now apply IH.
Qed.

Lemma filter_complement_length {A} (f : A -> bool) (l : list A) :
  List.length (filter f l) + List.length (filter (fun x => negb (f x)) l)
  = List.length l.
Proof.
  induction l as [|x l IH]; cbn [filter]; [reflexivity |].
  destruct (f x); cbn [negb List.length]; lia.
Qed.

Lemma filter_none {A} (f : A -> bool) (l : list A) :
  filter f (filter (fun x => negb (f x)) l) = [].
Proof.
  induction l as [|x l IH]; cbn [filter]; [reflexivity |].
  destruct (f x) eqn:Hf; cbn [negb filter]; [exact IH |].
  now rewrite Hf.
Qed.

Lemma filter_twice {A} (f : A -> bool) (l : list A) :
  filter f (filter f l) = filter f l.
Proof.
  induction l as [|x l IH]; cbn [filter]; [reflexivity |].
  destruct (f x) eqn:Hf; cbn [filter]; [rewrite Hf; now f_equal | exact IH].
Qed.

Lemma filter_slugs_NoDup (f : Page -> bool) (store : Store) :
  NoDup (slugs store) -> NoDup (slugs (filter f store)).
Proof.
  unfold slugs.
  induction store as [|page store IH]; cbn [filter map]; intros Hnd;
    [constructor |].
  inversion Hnd as [|? ? Hfirst Hrest]; subst.
  destruct (f page); [| now apply IH].
  cbn [map]. constructor; [| now apply IH].
  intros Hin. apply Hfirst. apply in_map_iff in Hin.
  destruct Hin as [other [Heq Hin]]. apply filter_In in Hin.
  apply in_map_iff. exists other. tauto.
Qed.

(** X11.  Bulk deletion by a template key removes the pages that carry the
    key and no other: the count it reports is the number removed, a page
    of another key is still found under its slug, distinct slugs stay
    distinct, and deleting again removes nothing. *)
Theorem delete_pages_effect (store : Store) (key : string) :
  key <> "" ->
  (forall page,
      In page (fst (delete_pages store (Some key)))
      <-> In page store /\ templateKey page <> key)
  /\ (exists n,
        snd (delete_pages store (Some key))
        = DeleteOk ("Deleted " ++ JS.number_to_string n
                      ++ " pages with template key: " ++ key) (Some n)
        /\ n + List.length (fst (delete_pages store (Some key)))
           = List.length store)
  /\ (forall s page,
        findOne store s = Some page ->
        templateKey page <> key ->
        findOne (fst (delete_pages store (Some key))) s = Some page)
  /\ (NoDup (slugs store) ->
      NoDup (slugs (fst (delete_pages store (Some key)))))
  /\ delete_pages (fst (delete_pages store (Some key))) (Some key)
     = (fst (delete_pages store (Some key)),
        DeleteOk ("Deleted 0 pages with template key: " ++ key) (Some 0)).
Proof.
  intros Hkey. apply truthy_true_iff in Hkey.
  unfold delete_pages, deleteMany.
  cbn [Templating.truthy_field JS.or_else]. rewrite Hkey. cbn [negb fst snd].
  split; [| split; [| split; [| split]]].
  - intros page. rewrite filter_In. unfold has_templateKey.
    destruct (String.eqb_spec (templateKey page) key); cbn [negb];
      intuition congruence.
  - eexists. split; [reflexivity |]. apply filter_complement_length.
  - intros s page Hfound Hother. unfold findOne in *.
    apply find_filter_kept; [exact Hfound |].
    unfold has_templateKey.
    destruct (String.eqb_spec (templateKey page) key); [congruence | reflexivity].
  - apply filter_slugs_NoDup.
  - rewrite filter_none, filter_twice. reflexivity.
Qed.

Lemma delete_pages_effect_witness :
  exists n,
    snd (delete_pages MoreExamples.two_pages (Some "faq-rich"))
    = DeleteOk ("Deleted " ++ JS.number_to_string n
                  ++ " pages with template key: " ++ "faq-rich") (Some n)
    /\ n + List.length (fst (delete_pages MoreExamples.two_pages
                               (Some "faq-rich")))
       = List.length MoreExamples.two_pages.
Proof.
  apply (delete_pages_effect MoreExamples.two_pages "faq-rich").
  discriminate.
Defined.

End AdminPagesExtras.

(* ================================================================= *)
(** ** The paginated listing *)

Module ListingExtras.
Import PageModel AdminPages.

Lemma parsed_or_positive (parsed : option Z) (dflt : Z) :
  (0 < dflt)%Z -> not_negative parsed -> (0 < parsed_or parsed dflt)%Z.
Proof.
  unfold parsed_or, not_negative. destruct parsed as [z |]; [| auto].
  destruct (Z.eqb_spec z 0); lia.
Qed.

Lemma ceil_div_covers (total limit : Z) :
  (0 < limit)%Z -> (total <= ceil_div total limit * limit)%Z.
Proof.
  intros Hlimit. unfold ceil_div.
  pose proof (Z.div_mod (- total) limit ltac:(lia)) as Hdiv.
  pose proof (Z.mod_pos_bound (- total) limit Hlimit) as Hmod.
  nia.
Qed.

Lemma next_page_iff (page limit total : Z) :
  (0 < limit)%Z ->
  (page * limit < total)%Z <-> (page < ceil_div total limit)%Z.
Proof.
  intros Hlimit. unfold ceil_div.
  pose proof (Z.div_mod (- total) limit ltac:(lia)) as Hdiv.
  pose proof (Z.mod_pos_bound (- total) limit Hlimit) as Hmod.
  split; intros H; nia.
Qed.

Lemma ceil_div_nonneg (total limit : Z) :
  (0 < limit)%Z -> (0 <= total)%Z -> (0 <= ceil_div total limit)%Z.
Proof.
  intros Hlimit Htotal.
  pose proof (next_page_iff (-1) limit total Hlimit) as H. lia.
Qed.

Lemma firstn_skipn_add {A} (l : list A) :
  forall a b, (firstn a l ++ firstn b (skipn a l))%list = firstn (a + b) l.
Proof.
  induction l as [|x l IH]; intros a b.
  - now rewrite !firstn_nil, skipn_nil, firstn_nil.
  - destruct a as [|a]; [reflexivity |].
    simpl. f_equal. apply IH.
Qed.

(** Consecutive pages of [limit] items make up a prefix. *)
Lemma chunks_prefix {A} (l : list A) (limit : nat) :
  forall n,
    concat (map (fun p => firstn limit (skipn ((p - 1) * limit) l)) (seq 1 n))
    = firstn (n * limit) l.
Proof.
  induction n as [|n IH]; [reflexivity |].
  rewrite seq_S, map_app, concat_app, IH. cbn [map concat Nat.add].
  rewrite app_nil_r.
  replace (S n - 1) with n by lia.
  rewrite firstn_skipn_add. f_equal. lia.
Qed.

Section Listing.

Variable sort_created_desc : list Page -> list Page.
Variable distinct_templateKeys : Store -> list string.
Variable skip_limit : Z -> Z -> list Page -> option (list Page).

(** The listing of page [p], [p] at least one, under a positive limit. *)
Lemma list_pages_window (store : Store) (p : nat)
    (limit_param : option Z) (templateKey : option string) :
  windowing skip_limit ->
  not_negative limit_param ->
  1 <= p ->
  pages_of (list_pages sort_created_desc distinct_templateKeys skip_limit
              store (Some (Z.of_nat p)) limit_param templateKey)
  = map listed
        (firstn (Z.to_nat (parsed_or limit_param 20))
           (skipn ((p - 1) * Z.to_nat (parsed_or limit_param 20))
                  (sort_created_desc (matching store templateKey))))
  /\ list_pages sort_created_desc distinct_templateKeys skip_limit
       store (Some (Z.of_nat p)) limit_param templateKey <> ListError.
Proof.
  intros Hwindow Hlimit Hp.
  pose proof (parsed_or_positive limit_param 20 ltac:(lia) Hlimit) as Hpos.
  unfold list_pages.
  set (limit := parsed_or limit_param 20) in *.
  assert (Hpage : parsed_or (Some (Z.of_nat p)) 1 = Z.of_nat p).
  { unfold parsed_or. destruct (Z.eqb_spec (Z.of_nat p) 0); [lia | reflexivity]. }
  rewrite Hpage, Hwindow by nia.
  cbn [pages_of pages]. split; [| discriminate].
  do 3 f_equal.
  rewrite Z2Nat.inj_mul, Z2Nat.inj_sub, Nat2Z.id by lia.
  reflexivity.
Qed.

(** X12.  For page and limit parameters that are absent, not numbers or
    not negative, and a database that returns the window asked for, the
    listing is answered and its pagination is consistent: the page number
    and the page size are at least one, there is a next page exactly when
    the current page is before the last, a previous page exactly when it
    is after the first, no page at all exactly when nothing matches, and
    the pages up to the last hold room for every item. *)
Theorem list_pages_pagination (store : Store)
    (page_param limit_param : option Z) (templateKey : option string) :
  windowing skip_limit ->
  not_negative page_param ->
  not_negative limit_param ->
  exists listing,
    list_pages sort_created_desc distinct_templateKeys skip_limit store
      page_param limit_param templateKey = ListOk listing
    /\ (1 <= currentPage (pagination listing))%Z
    /\ (1 <= itemsPerPage (pagination listing))%Z
    /\ totalItems (pagination listing)
       = Z.of_nat (List.length (matching store templateKey))
    /\ (hasNextPage (pagination listing) = true
        <-> (currentPage (pagination listing)
             < totalPages (pagination listing))%Z)
    /\ (hasPrevPage (pagination listing) = true
        <-> (1 < currentPage (pagination listing))%Z)
    /\ (totalPages (pagination listing) = 0%Z
        <-> matching store templateKey = [])
    /\ (totalItems (pagination listing)
        <= totalPages (pagination listing)
           * itemsPerPage (pagination listing))%Z.
Proof.
  intros Hwindow Hpage Hlimit.
  apply (parsed_or_positive _ 1 ltac:(lia)) in Hpage.
  apply (parsed_or_positive _ 20 ltac:(lia)) in Hlimit.
  unfold list_pages.
  set (page := parsed_or page_param 1) in *.
  set (limit := parsed_or limit_param 20) in *.
  set (total := Z.of_nat (List.length (matching store templateKey))).
  rewrite Hwindow by nia.
  eexists. split; [reflexivity |].
  cbn [pagination currentPage itemsPerPage hasNextPage hasPrevPage
       totalPages totalItems].
  split; [lia |]. split; [lia |]. split; [reflexivity |].
  split; [| split; [| split]].
  - rewrite Z.ltb_lt.
    replace ((page - 1) * limit + limit)%Z with (page * limit)%Z by lia.
    now apply next_page_iff.
  - apply Z.ltb_lt.
  - pose proof (ceil_div_covers total limit Hlimit) as Hcover.
    pose proof (next_page_iff 0 limit total Hlimit) as Hzero.
    unfold total in *. split.
    + intros H0. destruct (matching store templateKey); [reflexivity |].
      cbn [List.length] in *. lia.
    + intros Heq. rewrite Heq in *. cbn [List.length] in *.
      pose proof (ceil_div_nonneg (Z.of_nat 0) limit Hlimit ltac:(lia)).
      lia.
  - now apply ceil_div_covers.
Qed.

(** X13.  When the database returns the window asked for, sorting keeps
    the number of documents and the limit parameter is absent, not a number
    or not negative, the listings of the pages from the first to the last
    are all answered and, one after another, hold every matching document
    once, in the sorted order; each listing holds at most the page size. *)
Theorem list_pages_cover (store : Store) (limit_param : option Z)
    (templateKey : option string) :
  windowing skip_limit ->
  (forall found, List.length (sort_created_desc found) = List.length found) ->
  not_negative limit_param ->
  (forall p,
      1 <= p ->
      list_pages sort_created_desc distinct_templateKeys skip_limit store
        (Some (Z.of_nat p)) limit_param templateKey <> ListError)
  /\ concat
       (map (fun p =>
               pages_of (list_pages sort_created_desc distinct_templateKeys
                           skip_limit store (Some (Z.of_nat p)) limit_param
                           templateKey))
            (seq 1 (Z.to_nat
                      (ceil_div
                         (Z.of_nat (List.length (matching store templateKey)))
                         (parsed_or limit_param 20)))))
     = map listed (sort_created_desc (matching store templateKey))
  /\ forall p,
       1 <= p ->
       (Z.of_nat
          (List.length
             (pages_of (list_pages sort_created_desc distinct_templateKeys
                          skip_limit store (Some (Z.of_nat p)) limit_param
                          templateKey)))
        <= parsed_or limit_param 20)%Z.
Proof.
  intros Hwindow Hsort Hlimit.
  pose proof (parsed_or_positive limit_param 20 ltac:(lia) Hlimit) as Hpos.
  split; [| split].
  - intros p Hp.
    now apply (list_pages_window store p limit_param templateKey).
  - set (limit := parsed_or limit_param 20) in *.
    set (found := matching store templateKey).
    set (n := Z.to_nat (ceil_div (Z.of_nat (List.length found)) limit)).
    transitivity
      (map listed
         (concat
            (map (fun p =>
                    firstn (Z.to_nat limit)
                      (skipn ((p - 1) * Z.to_nat limit)
                             (sort_created_desc found)))
                 (seq 1 n)))).
    + rewrite concat_map, map_map. f_equal. apply map_ext_in.
      intros p Hp. apply in_seq in Hp.
      apply (list_pages_window store p limit_param templateKey);
        [assumption | assumption | lia].
    + rewrite chunks_prefix, firstn_all2; [reflexivity |].
      rewrite Hsort. unfold n.
      pose proof (ceil_div_covers (Z.of_nat (List.length found)) limit Hpos).
      pose proof (ceil_div_nonneg (Z.of_nat (List.length found)) limit Hpos
                    ltac:(lia)).
      nia.
  - intros p Hp.
    destruct (list_pages_window store p limit_param templateKey
                Hwindow Hlimit Hp) as [-> _].
    rewrite length_map.
    pose proof (firstn_le_length (Z.to_nat (parsed_or limit_param 20))
                  (skipn ((p - 1) * Z.to_nat (parsed_or limit_param 20))
                         (sort_created_desc (matching store templateKey)))).
    lia.
Qed.

End Listing.

Lemma window_windowing : windowing MoreExamples.window.
Proof.
  intros skip limit docs Hskip Hlimit. unfold MoreExamples.window.
  destruct (Z.ltb_spec skip 0); [lia |].
  now rewrite Z.abs_eq by lia.
Qed.

Lemma list_pages_pagination_witness :
  exists listing,
    list_pages (@List.rev Page) slugs MoreExamples.window
      MoreExamples.two_pages (Some 2%Z) (Some 1%Z) None = ListOk listing
    /\ (1 <= currentPage (pagination listing))%Z.
Proof.
  destruct (list_pages_pagination (@List.rev Page) slugs MoreExamples.window
              MoreExamples.two_pages (Some 2%Z) (Some 1%Z) None
              window_windowing ltac:(cbn; lia) ltac:(cbn; lia))
    as [listing [Hrun [Hpage _]]].
  exists listing. split; [exact Hrun | exact Hpage].
Defined.

Lemma list_pages_cover_witness :
  concat
    (map (fun p =>
            pages_of (list_pages (@List.rev Page) slugs MoreExamples.window
                        MoreExamples.two_pages (Some (Z.of_nat p))
                        (Some 1%Z) None))
         (seq 1 (Z.to_nat
                   (ceil_div
                      (Z.of_nat
                         (List.length (matching MoreExamples.two_pages None)))
                      (parsed_or (Some 1%Z) 20)))))
  = map listed (List.rev (matching MoreExamples.two_pages None)).
Proof.
  apply (list_pages_cover (@List.rev Page) slugs MoreExamples.window
           MoreExamples.two_pages (Some 1%Z) None window_windowing).
  - intros found. apply length_rev.
  - cbn. lia.
Defined.

End ListingExtras.

(* ================================================================= *)
(** ** The render dispatcher, further *)

Module RenderExtras.
Import PageModel Pages.

Lemma resolve_defined (key : string) : exists def, resolve key = Some def.
Proof.
  unfold resolve. destruct (get key) as [v|]; [now exists v |].
  eexists. reflexivity.
Qed.

Lemma buildFaqSchema_shape (faqArray : list FaqItem) :
  Templating.buildFaqSchema faqArray
  = match filter Templating.complete_pair faqArray with
    | [] => JObj []
    | validFaqs =>
        JObj [ ("@context", JStr "https://schema.org");
               ("@type", JStr "FAQPage");
               ("mainEntity", JArr (map Templating.faq_question validFaqs)) ]
    end.
Proof.
  unfold Templating.buildFaqSchema.
  change (fun faq => Templating.truthy_field (q faq)
                     && Templating.truthy_field (a faq))
    with Templating.complete_pair.
  destruct faqArray as [|faq rest]; [reflexivity |].
  destruct (filter Templating.complete_pair (faq :: rest)); reflexivity.
Qed.

Section Dispatcher.

Variable renderFile : string -> Page -> list Page -> option string.
Variable legacy_markup : Page -> list Page -> string.

(** X14.  What the dispatcher answers.  It answers 404 exactly when no
    page has the slug, with the not-found document of that slug.  It
    answers 500 only when the page's template is not the inline one and
    the renderer rejects its view.  A page of the inline template
    [faq-rich] is always answered 200, whatever the renderer does.  A 200
    answer carries the title, the description and the structured data of
    the page found. *)
Theorem render_answers (store : Store) (s : string) :
  (forall html,
      render renderFile legacy_markup store s = Status404 html
      <-> findOne store s = None /\ html = not_found_html s)
  /\ (forall html,
        render renderFile legacy_markup store s = Status500 html ->
        exists page def,
          findOne store s = Some page
          /\ resolve (templateKey page) = Some def
          /\ get_legacyInline def = false
          /\ renderFile (interpolate (get_view def) ++ ".ejs") page
               (find_related store page) = None
          /\ html = server_error_html)
  /\ (forall page,
        findOne store s = Some page ->
        templateKey page = "faq-rich" ->
        render renderFile legacy_markup store s
        = Status200 (mkDocument (title page) (metaDescription page) "faq"
                       (legacy_markup page (find_related store page))
                       (structured_data page)))
  /\ (forall doc,
        render renderFile legacy_markup store s = Status200 doc ->
        exists page,
          findOne store s = Some page
          /\ doc_title doc = title page
          /\ doc_description doc = metaDescription page
          /\ doc_structured_data doc = structured_data page).
Proof.
  unfold render.
  destruct (findOne store s) as [page|] eqn:Hfound.
  - destruct (resolve_defined (templateKey page)) as [def Hdef].
    split; [| split; [| split]].
    + intros html. rewrite Hdef.
      split; [| intros [H _]; discriminate].
      destruct (get_legacyInline def); [discriminate |].
      destruct (renderFile _ page _); discriminate.
    + intros html. rewrite Hdef.
      destruct (get_legacyInline def) eqn:Hlegacy; [discriminate |].
      destruct (renderFile _ page _) eqn:Hview; [discriminate |].
      intros H. injection H as <-. exists page, def. repeat split; assumption.
    + intros page' Heq Hkey. injection Heq as <-. rewrite Hkey. reflexivity.
    + intros doc. rewrite Hdef.
      destruct (get_legacyInline def);
        [| destruct (renderFile _ page _); [| discriminate]];
        intros H; injection H as <-; exists page; repeat split.
  - split; [| split; [| split]].
    + intros html. split.
      * intros H. injection H as <-. now split.
      * intros [_ ->]. reflexivity.
    + discriminate.
    + discriminate.
    + discriminate.
Qed.

End Dispatcher.

Lemma firstn_incl {A} (n : nat) (l : list A) (x : A) :
  In x (firstn n l) -> In x l.
Proof.
  intros H. rewrite <- (firstn_skipn n l). apply in_or_app. now left.
Qed.

(** X15.  The related pages of a page are at most six pages of the
    collection, each with the template key of the page and a slug other
    than its own; when the collection holds no more than six such pages,
    all of them are related. *)
Theorem find_related_bounds (store : Store) (page : Page) :
  List.length (find_related store page) <= 6
  /\ (forall other,
        In other (find_related store page) ->
        In other store
        /\ templateKey other = templateKey page
        /\ slug other <> slug page)
  /\ (List.length
        (filter (fun other =>
                   String.eqb (templateKey other) (templateKey page)
                   && negb (String.eqb (slug other) (slug page)))
                store) <= 6 ->
      forall other,
        In other store ->
        templateKey other = templateKey page ->
        slug other <> slug page ->
        In other (find_related store page)).
Proof.
  unfold find_related. split; [| split].
  - apply firstn_le_length.
  - intros other Hin. apply firstn_incl in Hin. apply filter_In in Hin.
    destruct Hin as [Hin Hcond]. apply andb_prop in Hcond.
    destruct Hcond as [Hkey Hslug].
    apply String.eqb_eq in Hkey. apply negb_true_iff in Hslug.
    apply String.eqb_neq in Hslug. now repeat split.
  - intros Hfew other Hin Hkey Hslug.
    rewrite firstn_all2 by exact Hfew.
    apply filter_In. split; [exact Hin |].
    apply andb_true_intro. split.
    + now apply String.eqb_eq.
    + apply negb_true_iff. now apply String.eqb_neq.
Qed.

(** X16.  For a page whose structured data is that of its own pairs, as
    every generated page's is, the structured-data block is given to the
    document exactly when one of the pairs is complete, and then it holds
    one entry for each complete pair. *)
Theorem structured_data_emitted (page : Page) :
  faqSchema page = Templating.buildFaqSchema (faq page) ->
  (structured_data page = None
   <-> filter Templating.complete_pair (faq page) = [])
  /\ (structured_data page <> None ->
      structured_data page = Some (faqSchema page)
      /\ Templating.faq_entries (faqSchema page)
         = map Templating.faq_question
               (filter Templating.complete_pair (faq page))).
Proof.
  intros Hschema. unfold structured_data. rewrite Hschema.
  rewrite buildFaqSchema_shape.
  destruct (filter Templating.complete_pair (faq page)) as [|first rest].
  - split; [split; reflexivity | intros H; now elim H].
  - split; [split; discriminate |]. intros _. split; reflexivity.
Qed.

Lemma structured_data_emitted_witness :
  structured_data MoreExamples.faq_page
  = Some (faqSchema MoreExamples.faq_page)
  /\ Templating.faq_entries (faqSchema MoreExamples.faq_page)
     = map Templating.faq_question
           (filter Templating.complete_pair (faq MoreExamples.faq_page)).
Proof.
  apply (proj2 (structured_data_emitted MoreExamples.faq_page eq_refl)).
  discriminate.
Defined.

End RenderExtras.

(* ================================================================= *)
(** ** The CSV utilities *)

Module CsvExtras.
Import Csv.

Lemma filter_nil_iff {A} (f : A -> bool) (l : list A) :
  filter f l = [] <-> forall x, In x l -> f x = false.
Proof.
  induction l as [|y l IH]; cbn [filter In]; [tauto |].
  destruct (f y) eqn:Hy.
  - split; [discriminate |]. intros H. specialize (H y (or_introl eq_refl)).
    congruence.
  - rewrite IH. split.
    + intros H x [<- | Hx]; [exact Hy | now apply H].
    + intros H x Hx. apply H. now right.
Qed.

Lemma warning_nil_iff {A} (l : list A) (text : string) :
  (if Nat.ltb 0 (List.length l) then [text] else []) = [] <-> l = [].
Proof. destruct l; cbn; split; congruence. Qed.

(** X17.  A CSV is valid exactly when it has a row and a header; warnings
    never make it invalid, an invalid CSV carries one error and no
    warning, and a valid one carries no error.  A valid CSV has no warning
    at all exactly when [keyword] is a header, no column is blank in every
    row, and every row has at least half as many filled values as there
    are headers. *)
Theorem validateCsv_report (rows : list Row) (columns : list string) :
  (isValid (validateCsv rows columns) = true
   <-> rows <> [] /\ columns <> [])
  /\ (isValid (validateCsv rows columns) = true
      <-> errors (validateCsv rows columns) = [])
  /\ (isValid (validateCsv rows columns) = false ->
      warnings (validateCsv rows columns) = []
      /\ exists e, errors (validateCsv rows columns) = [e])
  /\ (isValid (validateCsv rows columns) = true ->
      (warnings (validateCsv rows columns) = []
       <-> In "keyword" columns
           /\ (forall header,
                  In header columns ->
                  exists row, In row rows /\ blank_cell row header = false)
           /\ (forall row,
                  In row rows ->
                  List.length columns <= 2 * filledFields row))).
Proof.
  unfold validateCsv.
  destruct rows as [|row0 rows].
  { cbn [isValid errors warnings]. split; [| split; [| split]].
    - split; [discriminate | intros [H _]; now elim H].
    - split; discriminate.
    - intros _. split; [reflexivity | eauto].
    - discriminate. }
  destruct columns as [|column0 columns].
  { cbn [isValid errors warnings]. split; [| split; [| split]].
    - split; [discriminate | intros [_ H]; now elim H].
    - split; discriminate.
    - intros _. split; [reflexivity | eauto].
    - discriminate. }
  cbn [isValid errors warnings].
  split; [| split; [| split]].
  - split; [intros _; split; discriminate | reflexivity].
  - split; reflexivity.
  - discriminate.
  - intros _.
    set (data := row0 :: rows). set (headers := column0 :: columns).
    split.
    + intros Hnil.
      apply app_eq_nil in Hnil. destruct Hnil as [H1 Hnil].
      apply app_eq_nil in Hnil. destruct Hnil as [H2 H3].
      apply warning_nil_iff in H1, H2, H3.
      split; [| split].
      * apply (proj1 (filter_nil_iff _ _)) with (x := "keyword") in H1;
          [| now left].
        apply negb_false_iff in H1. now apply includes_In in H1.
      * intros header Hin.
        apply (proj1 (filter_nil_iff _ _)) with (x := header) in H2;
          [| exact Hin].
        apply not_true_iff_false in H2.
        destruct (existsb (fun row => negb (blank_cell row header)) data)
          eqn:Hex.
        -- apply existsb_exists in Hex. destruct Hex as [row [Hrow Hb]].
           exists row. split; [exact Hrow | now apply negb_true_iff in Hb].
        -- exfalso. apply H2. apply forallb_forall. intros row Hrow.
           destruct (blank_cell row header) eqn:Hb; [reflexivity |].
           assert (Hex' : existsb (fun row => negb (blank_cell row header))
                                  data = true).
           { apply existsb_exists. exists row. split; [exact Hrow |].
             now rewrite Hb. }
           congruence.
      * intros row Hrow.
        apply (proj1 (filter_nil_iff _ _)) with (x := row) in H3;
          [| exact Hrow].
        apply Nat.ltb_ge in H3. exact H3.
    + intros [Hkeyword [Hcolumns Hrows]].
      assert (H1 : filter (fun field =>
                             negb (JS.includes headers
                                     (JSText.toLowerCase field)))
                          commonFields = []).
      { apply filter_nil_iff. intros field [<- | []]. apply negb_false_iff.
        now apply includes_In. }
      assert (H2 : filter (fun header =>
                             forallb (fun row => blank_cell row header) data)
                          headers = []).
      { apply filter_nil_iff. intros header Hin.
        destruct (Hcolumns header Hin) as [row [Hrow Hb]].
        apply not_true_iff_false. intros Hall.
        apply (proj1 (forallb_forall _ _)) with (x := row) in Hall;
          [congruence | exact Hrow]. }
      assert (H3 : filter (fun row =>
                             Nat.ltb (2 * filledFields row)
                                     (List.length headers))
                          data = []).
      { apply filter_nil_iff. intros row Hrow.
        apply Nat.ltb_ge. now apply Hrows. }
      rewrite H1, H2, H3. reflexivity.
Qed.

(** X18.  Parsing keeps exactly the rows that have a value that is not
    blank and counts them; parsing what it kept changes nothing; and what
    it returns is a valid CSV exactly when some row has such a value and
    the parser found a header. *)
Theorem parse_complete_report (rows : list Row)
    (fields : option (list string)) :
  (forall row,
      In row (data (parse_complete rows fields))
      <-> In row rows
          /\ exists value,
               In value (map snd row) /\ JSText.non_blank value = true)
  /\ totalRows (parse_complete rows fields)
     = List.length (data (parse_complete rows fields))
  /\ totalRows (parse_complete rows fields) <= List.length rows
  /\ parse_complete (data (parse_complete rows fields)) fields
     = parse_complete rows fields
  /\ (isValid (validateCsv (data (parse_complete rows fields))
                           (headers (parse_complete rows fields))) = true
      <-> (exists row value,
              In row rows /\ In value (map snd row)
              /\ JSText.non_blank value = true)
          /\ exists columns, fields = Some columns /\ columns <> []).
Proof.
  unfold parse_complete. cbn [data headers totalRows].
  split; [| split; [| split; [| split]]].
  - intros row. rewrite filter_In. now rewrite existsb_exists.
  - reflexivity.
  - apply filter_length_le.
  - f_equal; [| f_equal]; apply AdminPagesExtras.filter_twice.
  - unfold validateCsv.
    match goal with
    | |- context [filter ?f rows] =>
        assert (Hkept : forall row,
                   In row (filter f rows)
                   <-> In row rows
                       /\ exists value,
                            In value (map snd row)
                            /\ JSText.non_blank value = true)
          by (intros row; rewrite filter_In; now rewrite existsb_exists);
        generalize dependent (filter f rows)
    end.
    intros cleaned Hkept.
    destruct cleaned as [|row0 kept_rows].
    + cbn [isValid]. split; [discriminate |].
      intros [[row [value [Hrow Hvalue]]] _]. exfalso.
      apply (proj2 (Hkept row)). eauto.
    + destruct (proj1 (Hkept row0) (or_introl eq_refl))
        as [Hin0 [value Hvalue]].
      destruct fields as [[|column columns]|]; cbn [isValid].
      * split; [discriminate |].
        intros [_ [columns [Heq Hne]]]. injection Heq as <-. now elim Hne.
      * split; [| reflexivity]. intros _. split.
        -- exists row0, value. tauto.
        -- eexists. split; [reflexivity | discriminate].
      * split; [discriminate |]. intros [_ [columns [Heq _]]]. discriminate.
Qed.

End CsvExtras.

(* ================================================================= *)
(** ** The deploy slug *)

Module DeployExtras.
Import Deploy.






End DeployExtras.

(* ================================================================= *)
(** ** The admin authentication middleware *)

Module ServerExtras.
Import Server.

Lemma split_char_nonempty (sep : ascii) (s : string) :
  JSText.split_char sep s <> [].
Proof.
  destruct s as [|c s]; cbn [JSText.split_char]; [discriminate |].
  destruct (Ascii.eqb c sep); [discriminate |].
  destruct (JSText.split_char sep s); discriminate.
Qed.

(** No part of a split holds the separator. *)
Lemma split_char_parts (sep : ascii) (s : string) :
  Forall (fun part => JS.contains_char sep part = false)
         (JSText.split_char sep s).
Proof.
  induction s as [|c s IH]; cbn [JSText.split_char].
  - constructor; [reflexivity | constructor].
  - destruct (Ascii.eqb c sep) eqn:Hc.
    + constructor; [reflexivity | exact IH].
    + destruct (JSText.split_char sep s) as [|part parts].
      * constructor; [| constructor].
        cbn [JS.contains_char]. now rewrite Hc.
      * inversion IH as [|? ? Hpart Hparts]; subst.
        constructor; [| exact Hparts].
        cbn [JS.contains_char]. now rewrite Hc.
Qed.

(** A text without the separator, the separator, and a rest: the text
    is the first part. *)
Lemma split_char_first (sep : ascii) (s rest : string) :
  JS.contains_char sep s = false ->
  JSText.split_char sep (s ++ String sep rest)
  = s :: JSText.split_char sep rest.
Proof.
  induction s as [|c s IH]; cbn [append JSText.split_char JS.contains_char].
  - intros _. now rewrite Ascii.eqb_refl.
  - intros H. apply orb_false_elim in H. destruct H as [Hc Hs].
    rewrite Hc, (IH Hs). reflexivity.
Qed.

Lemma split_char_whole (sep : ascii) (s : string) :
  JS.contains_char sep s = false ->
  JSText.split_char sep s = [s].
Proof.
  induction s as [|c s IH]; cbn [JSText.split_char JS.contains_char].
  - reflexivity.
  - intros H. apply orb_false_elim in H. destruct H as [Hc Hs].
    now rewrite Hc, (IH Hs).
Qed.

Lemma starts_with_prefix (p s : string) :
  JS.starts_with p s = true -> exists rest, s = p ++ rest.
Proof.
  revert s. induction p as [|a p IH]; intros s; cbn [JS.starts_with].
  - intros _. now exists s.
  - destruct s as [|b s]; [discriminate |].
    intros H. apply andb_prop in H. destruct H as [Hab Hp].
    apply Ascii.eqb_eq in Hab. subst b.
    destruct (IH s Hp) as [rest ->]. now exists rest.
Qed.

(** A header that starts with the scheme has a second part. *)
Lemma basic_header_parts (auth : string) :
  JS.starts_with "Basic " auth = true ->
  exists rest,
    auth = "Basic " ++ rest
    /\ nth_error (JSText.split_char " " auth) 1
       = nth_error (JSText.split_char " " rest) 0
    /\ nth_error (JSText.split_char " " rest) 0 <> None.
Proof.
  intros H. destruct (starts_with_prefix _ _ H) as [rest ->].
  exists rest. split; [reflexivity |].
  change ("Basic " ++ rest) with ("Basic" ++ String " " rest).
  rewrite split_char_first by reflexivity.
  split; [reflexivity |].
  pose proof (split_char_nonempty " " rest) as Hne.
  destruct (JSText.split_char " " rest); [now elim Hne | discriminate].
Qed.

(** X20.  Basic authentication, the round trip.  With a user and a
    password configured, and a header made of the scheme and an encoding
    without a space that decodes to u:p, where u and p hold no colon, the
    middleware lets the request through exactly when u is the configured
    user and p the configured password; otherwise it answers 401
    Invalid credentials. *)
Theorem basicAuth_credentials (base64_decode : string -> string)
    (user pass enc u p : string) :
  user <> "" ->
  pass <> "" ->
  JS.contains_char " " enc = false ->
  JS.contains_char ":" u = false ->
  JS.contains_char ":" p = false ->
  base64_decode enc = u ++ ":" ++ p ->
  basicAuth base64_decode (Some user) (Some pass) (Some ("Basic " ++ enc))
  = if String.eqb u user && String.eqb p pass
    then Next
    else Unauthorized "Invalid credentials".
Proof.
  intros Huser Hpass Henc Hu Hp Hdecode.
  apply truthy_true_iff in Huser. apply truthy_true_iff in Hpass.
  unfold basicAuth. cbn [Templating.truthy_field].
  rewrite Huser, Hpass. cbn [negb orb].
  change (JS.truthy ("Basic " ++ enc)) with true.
  change (JS.starts_with "Basic " ("Basic " ++ enc)) with true.
  cbn [negb orb].
  change ("Basic " ++ enc) with ("Basic" ++ String " " enc).
  rewrite split_char_first by reflexivity.
  rewrite (split_char_whole " " enc Henc). cbn [nth_error].
  rewrite Hdecode.
  change (u ++ ":" ++ p) with (u ++ String ":" p).
  rewrite (split_char_first ":" u p Hu), (split_char_whole ":" p Hp).
  cbn [nth_error]. reflexivity.
Qed.

Lemma basicAuth_credentials_witness :
  basicAuth MoreExamples.decode_one (Some "admin") (Some "s3cret")
            (Some "Basic YWRtaW46czNjcmV0")
  = Next.
Proof.
  apply (basicAuth_credentials MoreExamples.decode_one "admin" "s3cret"
           "YWRtaW46czNjcmV0" "admin" "s3cret");
    first [discriminate | reflexivity].
Defined.

(** X21.  A colon in the configuration locks everyone out.  When a user
    and a password are configured and one of them holds a colon, no
    Authorization header, whatever it decodes to, is let through: every
    request is answered 401. *)
Theorem basicAuth_colon_lockout (base64_decode : string -> string)
    (user pass : string) (authorization : option string) :
  user <> "" ->
  pass <> "" ->
  JS.contains_char ":" user = true \/ JS.contains_char ":" pass = true ->
  exists body,
    basicAuth base64_decode (Some user) (Some pass) authorization
    = Unauthorized body.
Proof.
  intros Huser Hpass Hcolon.
  apply truthy_true_iff in Huser. apply truthy_true_iff in Hpass.
  unfold basicAuth. cbn [Templating.truthy_field].
  rewrite Huser, Hpass. cbn [negb orb].
  destruct authorization as [auth |]; [| eauto].
  destruct (JS.truthy auth); cbn [negb orb]; [| eauto].
  destruct (JS.starts_with "Basic " auth) eqn:Hstart; cbn [negb]; [| eauto].
  destruct (basic_header_parts auth Hstart) as [rest [_ [-> Hsome]]].
  destruct (nth_error (JSText.split_char " " rest) 0) as [encoded |];
    [| now elim Hsome].
  pose proof (split_char_parts ":" (base64_decode encoded)) as Hparts.
  destruct (JSText.split_char ":" (base64_decode encoded))
    as [|username [|password others]]; cbn [nth_error].
  - cbn [andb]. eauto.
  - rewrite andb_false_r. eauto.
  - inversion Hparts as [|? ? Husername Hrest]; subst.
    inversion Hrest as [|? ? Hpassword _]; subst.
    destruct (String.eqb_spec username user) as [-> | _];
      [| cbn [andb]; eauto].
    destruct (String.eqb_spec password pass) as [-> | _];
      [| cbn [andb]; eauto].
    destruct Hcolon; congruence.
Qed.

Lemma basicAuth_colon_lockout_witness :
  exists body,
    basicAuth MoreExamples.decode_one (Some "admin") (Some "s3:cret")
              (Some "Basic YWRtaW46czNjcmV0")
    = Unauthorized body.
Proof.
  apply (basicAuth_colon_lockout MoreExamples.decode_one "admin" "s3:cret");
    first [discriminate | right; reflexivity].
Defined.

(** X22.  What the middleware lets through.  It never fails; and with a
    user and a password configured, a request is let through only when
    its header starts with the scheme and the text decoded from the part
    after the first space has the configured user before its first colon
    and the configured password between its first and second. *)
Theorem basicAuth_sound (base64_decode : string -> string)
    (ADMIN_USER ADMIN_PASS authorization : option string) :
  basicAuth base64_decode ADMIN_USER ADMIN_PASS authorization <> ServerError
  /\ (forall user pass,
        ADMIN_USER = Some user ->
        ADMIN_PASS = Some pass ->
        user <> "" ->
        pass <> "" ->
        basicAuth base64_decode ADMIN_USER ADMIN_PASS authorization = Next ->
        exists rest encoded others,
          authorization = Some ("Basic " ++ rest)
          /\ nth_error (JSText.split_char " " rest) 0 = Some encoded
          /\ JSText.split_char ":" (base64_decode encoded)
             = user :: pass :: others).
Proof.
  split.
  - unfold basicAuth.
    destruct (negb (Templating.truthy_field ADMIN_USER)
              || negb (Templating.truthy_field ADMIN_PASS));
      [discriminate |].
    destruct authorization as [auth |]; [| discriminate].
    destruct (JS.truthy auth); cbn [negb orb]; [| discriminate].
    destruct (JS.starts_with "Basic " auth) eqn:Hstart; cbn [negb];
      [| discriminate].
    destruct (basic_header_parts auth Hstart) as [rest [_ [-> Hsome]]].
    destruct (nth_error (JSText.split_char " " rest) 0); [| now elim Hsome].
    match goal with
    | |- (if ?b then _ else _) <> _ => destruct b; discriminate
    end.
  - intros user pass -> -> Huser Hpass.
    apply truthy_true_iff in Huser. apply truthy_true_iff in Hpass.
    unfold basicAuth. cbn [Templating.truthy_field].
    rewrite Huser, Hpass. cbn [negb orb].
    destruct authorization as [auth |]; [| discriminate].
    destruct (JS.truthy auth); cbn [negb orb]; [| discriminate].
    destruct (JS.starts_with "Basic " auth) eqn:Hstart; cbn [negb];
      [| discriminate].
    destruct (basic_header_parts auth Hstart) as [rest [-> [-> Hsome]]].
    destruct (nth_error (JSText.split_char " " rest) 0) as [encoded |]
      eqn:Hencoded; [| now elim Hsome].
    destruct (JSText.split_char ":" (base64_decode encoded))
      as [|username [|password others]] eqn:Hsplit; cbn [nth_error].
    + discriminate.
    + rewrite andb_false_r. discriminate.
    + destruct (String.eqb_spec username user) as [-> | _];
        [| discriminate].
      destruct (String.eqb_spec password pass) as [-> | _];
        [| discriminate].
      intros _. now exists rest, encoded, others.
Qed.

End ServerExtras.
